(** * Visibility observation scheduler

    A shallow embedding of [src/scenarios/IntersectionObserverExample.tsx]:
    the [IntersectionObserverProvider] component (target registry, pending
    queue, sensor lifecycle, batch dispatcher) and the
    [useIntersectionObserver] hook (bootstrap counter).

    Conventions of the embedding.
    - DOM elements and function objects are compared by reference in the
      source ([Map] keys, [===]); an element is its reference, a callback
      carries its reference next to a description of its body, and only the
      reference takes part in comparisons.
    - The React refs of the provider ([observerRef], [observedNodes],
      [tempNodes]) and the mutable context object are the fields of one
      [World] record that every function threads explicitly.
    - Every call the provider makes on a collaborator (the sensor, the
      registry [Map], the pending array, a consumer callback) is appended to
      [trace] in program order, so that ordering statements can be read off
      the trace.
    - Consumer callbacks are opaque: invoking one is an event.  The only
      callback the source installs is a React state setter, which does not
      call back into the provider.
    - [parseFloat] and the [IntersectionObserver] constructor are the
      host's: the embedding takes the test [parseFloat(value) > 0] and the
      exception the constructor throws for given options, if any, as the two
      fields of a [Host] parameter.  A threshold is a rational or a list of
      rationals; the constructor decides what it accepts. *)

From Stdlib Require Import List Bool Arith ZArith Lia String Ascii.
From Stdlib Require QArith.
Import ListNotations.
Local Open Scope string_scope.
Local Open Scope list_scope.

(** ** Data model *)

(** A DOM [Element], by reference. *)
Definition Element := nat.

(** [type VisibilityCallback = (isVisible: boolean) => void].  [fn_ref]
    is the identity of the function object, [fn_text] what it looks like. *)
Record VisibilityCallback := mkCallback {
  fn_ref : nat;
  fn_text : string
}.

(** [a === b] on function objects. *)
Definition same_function (a b : VisibilityCallback) : bool :=
  Nat.eqb (fn_ref a) (fn_ref b).

(** The value type of the [observedNodes] map. *)
Record NodeOptions := mkOptions {
  visibilityCallback : VisibilityCallback;
  stopObservingOnceVisible : bool
}.

(** The element type of the [tempNodes] array. *)
Record TempNode := mkTemp {
  node : Element;
  temp_visibilityCallback : VisibilityCallback;
  temp_stopObservingOnceVisible : bool
}.

Definition temp_options (t : TempNode) : NodeOptions :=
  mkOptions (temp_visibilityCallback t) (temp_stopObservingOnceVisible t).

(** ** The registry: a JavaScript [Map], in insertion order *)

Module JsMap.

Definition t := list (Element * NodeOptions).

Definition empty : t := [].

Fixpoint get (k : Element) (m : t) : option NodeOptions :=
  match m with
  | [] => None
  | (k', v) :: rest => if Nat.eqb k' k then Some v else get k rest
  end.

Definition has (k : Element) (m : t) : bool :=
  match get k m with Some _ => true | None => false end.

(** [Map.prototype.set]: an existing key keeps its place, a new key goes
    last. *)
Fixpoint set (k : Element) (v : NodeOptions) (m : t) : t :=
  match m with
  | [] => [(k, v)]
  | (k', v') :: rest =>
      if Nat.eqb k' k then (k, v) :: rest else (k', v') :: set k v rest
  end.

Fixpoint delete (k : Element) (m : t) : t :=
  match m with
  | [] => []
  | (k', v') :: rest =>
      if Nat.eqb k' k then rest else (k', v') :: delete k rest
  end.

Definition keys (m : t) : list Element := map fst m.

Definition size (m : t) : nat := List.length m.

(** What the host guarantees of a [Map]: one entry per key. *)
Definition ok (m : t) : Prop := NoDup (keys m).

End JsMap.

(** ** The sensor *)

(** The computed style of the root, as far as [rootRef] reads it. *)
Record CSSStyle := mkStyle {
  overflow : string;
  overflowY : string;
  overflowX : string
}.

(** The [HTMLElement] handed to [rootRef], with what
    [window.getComputedStyle] answers for it. *)
Record HTMLElement := mkRoot {
  root_element : Element;
  computedStyle : CSSStyle
}.

(** [threshold?: number | number[]].  The numbers are taken as rationals. *)
Inductive Threshold :=
| ThresholdUndefined
| ThresholdNumber (x : QArith_base.Q)
| ThresholdArray (xs : list QArith_base.Q).

(** An [IntersectionObserver] instance: its options and its observation
    targets. *)
Record IntersectionObserver := mkObserver {
  io_root : Element;
  io_rootMargin : option string;
  io_threshold : Threshold;
  io_targets : list Element
}.

(** What the embedding takes from the host. *)
Record Host := mkHost {
  (** [parseFloat(value) > 0] *)
  parseFloat_positive : string -> bool;
  (** The message of the exception that
      [new IntersectionObserver(callback, {root, rootMargin, threshold})]
      throws for these options, [None] when it returns an observer. *)
  observer_error : option string -> Threshold -> option string
}.

(** [observer.observe(n)]: a target already observed is not added again. *)
Definition observe (n : Element) (io : IntersectionObserver) : IntersectionObserver :=
  if existsb (Nat.eqb n) (io_targets io) then io
  else mkObserver (io_root io) (io_rootMargin io) (io_threshold io)
                  (io_targets io ++ [n]).

(** [observer.unobserve(n)]. *)
Definition unobserve (n : Element) (io : IntersectionObserver) : IntersectionObserver :=
  mkObserver (io_root io) (io_rootMargin io) (io_threshold io)
             (filter (fun x => negb (Nat.eqb n x)) (io_targets io)).

(** One [IntersectionObserverEntry], as far as the dispatcher reads it. *)
Record IntersectionObserverEntry := mkEntry {
  target : Element;
  isIntersecting : bool
}.

(** ** Events and the world *)

Inductive Event :=
| EvNewObserver (root : Element)          (* new IntersectionObserver(...) *)
| EvObserve (n : Element)                 (* observerRef.current.observe(n) *)
| EvUnobserve (n : Element)               (* observerRef.current.unobserve(n) *)
| EvDisconnect                            (* observerRef.current.disconnect() *)
| EvPush (n : Element)                    (* tempNodes.current.push({node: n, ...}) *)
| EvSet (n : Element)                     (* observedNodes.current.set(n, ...) *)
| EvDelete (n : Element)                  (* observedNodes.current.delete(n) *)
| EvCall (n : Element) (cb : VisibilityCallback) (isVisible : bool).
                                          (* the callback stored for n, applied *)

Record World := mkWorld {
  observerRef : option IntersectionObserver;
  observedNodes : JsMap.t;
  tempNodes : list TempNode;
  initiallyVisibleElements : Z;
  trace : list Event
}.

(** The provider right after its first render:
    [initiallyVisibleElements: initiallyVisibleElements || 0]. *)
Definition initial (initiallyVisible : option Z) : World :=
  mkWorld None JsMap.empty []
          (match initiallyVisible with Some n => n | None => 0%Z end) [].

Definition emit (evs : list Event) (w : World) : World :=
  mkWorld (observerRef w) (observedNodes w) (tempNodes w)
          (initiallyVisibleElements w) (trace w ++ evs).

(** [observerRef.current?.observe(n)] *)
Definition sensor_observe (n : Element) (w : World) : World :=
  match observerRef w with
  | Some io =>
      mkWorld (Some (observe n io)) (observedNodes w) (tempNodes w)
              (initiallyVisibleElements w) (trace w ++ [EvObserve n])
  | None => w
  end.

(** [observerRef.current?.unobserve(n)] *)
Definition sensor_unobserve (n : Element) (w : World) : World :=
  match observerRef w with
  | Some io =>
      mkWorld (Some (unobserve n io)) (observedNodes w) (tempNodes w)
              (initiallyVisibleElements w) (trace w ++ [EvUnobserve n])
  | None => w
  end.

(** [observedNodes.current.set(n, {visibilityCallback, stopObservingOnceVisible})] *)
Definition registry_set (n : Element) (o : NodeOptions) (w : World) : World :=
  mkWorld (observerRef w) (JsMap.set n o (observedNodes w)) (tempNodes w)
          (initiallyVisibleElements w) (trace w ++ [EvSet n]).

(** [observedNodes.current.delete(n)] *)
Definition registry_delete (n : Element) (w : World) : World :=
  mkWorld (observerRef w) (JsMap.delete n (observedNodes w)) (tempNodes w)
          (initiallyVisibleElements w) (trace w ++ [EvDelete n]).

(** [tempNodes.current.push(t)] *)
Definition temp_push (t : TempNode) (w : World) : World :=
  mkWorld (observerRef w) (observedNodes w) (tempNodes w ++ [t])
          (initiallyVisibleElements w) (trace w ++ [EvPush (node t)]).

(** [tempNodes.current = []] *)
Definition temp_clear (w : World) : World :=
  mkWorld (observerRef w) (observedNodes w) []
          (initiallyVisibleElements w) (trace w).

(** [o.visibilityCallback(b)], for the entry stored under [n]. *)
Definition invoke (n : Element) (o : NodeOptions) (b : bool) (w : World) : World :=
  emit [EvCall n (visibilityCallback o) b] w.

(** ** The provider *)

(** *** [registerObserver] *)

(** The [for ... of observedNodes.current] loop of the null-node branch,
    over the entries still to visit: the first entry whose callback is the
    given function is unobserved and deleted, and the loop is left. *)
Fixpoint unregister_loop (entries : list (Element * NodeOptions))
         (cb : VisibilityCallback) (w : World) : World :=
  match entries with
  | [] => w
  | (observedNode, observedNodeOptions) :: rest =>
      if same_function (visibilityCallback observedNodeOptions) cb
      then registry_delete observedNode (sensor_unobserve observedNode w)
      else unregister_loop rest cb w
  end.

Definition registerObserver (n : option Element) (cb : VisibilityCallback)
           (stop : bool) (w : World) : World :=
  match n with
  | Some n =>
      if JsMap.has n (observedNodes w) then w
      else
        match observerRef w with
        | None => temp_push (mkTemp n cb stop) w
        | Some _ => registry_set n (mkOptions cb stop) (sensor_observe n w)
        end
  | None => unregister_loop (observedNodes w) cb w
  end.

(** *** The observer callback *)

(** The body of [entries.forEach((entry) => ...)]. *)
Definition dispatch_entry (w : World) (entry : IntersectionObserverEntry) : World :=
  match JsMap.get (target entry) (observedNodes w) with
  | Some observedNodeOptions =>
      let w1 := invoke (target entry) observedNodeOptions (isIntersecting entry) w in
      if isIntersecting entry && stopObservingOnceVisible observedNodeOptions
      then registry_delete (target entry) (sensor_unobserve (target entry) w1)
      else w1
  | None => w
  end.

(** One sensor tick: [unstable_batchedUpdates(() => entries.forEach(...))]. *)
Definition onIntersection (entries : list IntersectionObserverEntry) (w : World) : World :=
  fold_left dispatch_entry entries w.

(** *** [rootRef] *)

Inductive Outcome :=
| Done (w : World)
| Thrown (message : string) (w : World).

Definition world_of (o : Outcome) : World :=
  match o with Done w => w | Thrown _ w => w end.

Definition overflow_error : string :=
  "[IntersectionObserverProvider]: The root element should have CSS overflow: auto for positive rootMargin values to work correctly.".

(** [s.split(" ")] *)
Fixpoint split_on_space (s : string) : list string :=
  match s with
  | EmptyString => [EmptyString]
  | String c rest =>
      if Ascii.eqb c " "%char then EmptyString :: split_on_space rest
      else
        match split_on_space rest with
        | [] => [String c EmptyString]
        | piece :: pieces => String c piece :: pieces
        end
  end.

(** The body of [tempNodes.current.forEach(...)]. *)
Definition flush_one (w : World) (t : TempNode) : World :=
  registry_set (node t) (temp_options t) (sensor_observe (node t) w).

(** The observer that [new IntersectionObserver(callback, {root, rootMargin,
    threshold})] returned, stored in [observerRef.current]. *)
Definition new_observer (root : HTMLElement) (rootMargin : option string)
           (threshold : Threshold) (w : World) : World :=
  mkWorld (Some (mkObserver (root_element root) rootMargin threshold []))
          (observedNodes w) (tempNodes w) (initiallyVisibleElements w)
          (trace w ++ [EvNewObserver (root_element root)]).

(** [observerRef.current?.disconnect(); observerRef.current = null] *)
Definition disconnect (w : World) : World :=
  match observerRef w with
  | Some _ =>
      mkWorld None (observedNodes w) (tempNodes w)
              (initiallyVisibleElements w) (trace w ++ [EvDisconnect])
  | None => w
  end.

Section Provider.

Variable host : Host.

(** [rootMargin && rootMargin.split(" ").some((value) => parseFloat(value) > 0)];
    [undefined] and the empty string are falsy. *)
Definition positive_rootMargin (rootMargin : option string) : bool :=
  match rootMargin with
  | None => false
  | Some EmptyString => false
  | Some s => existsb (parseFloat_positive host) (split_on_space s)
  end.

(** None of [overflow], [overflowY], [overflowX] computes to ["auto"]. *)
Definition no_auto_overflow (style : CSSStyle) : bool :=
  negb (String.eqb (overflow style) "auto")
  && negb (String.eqb (overflowY style) "auto")
  && negb (String.eqb (overflowX style) "auto").

(** The constructor call sits between the overflow check and the flush; when
    it throws, [observerRef.current] is not assigned and the queue is not
    replayed. *)
Definition rootRef (rootMargin : option string) (threshold : Threshold)
           (n : option HTMLElement) (w : World) : Outcome :=
  match n with
  | Some root =>
      if positive_rootMargin rootMargin && no_auto_overflow (computedStyle root)
      then Thrown overflow_error w
      else
        match observer_error host rootMargin threshold with
        | Some message => Thrown message w
        | None =>
            let w1 := new_observer root rootMargin threshold w in
            let w2 := fold_left flush_one (tempNodes w) w1 in
            Done (temp_clear w2)
        end
  | None => Done (disconnect w)
  end.

End Provider.

(** The cleanup of the provider's effect: [tempNodes.current = []]. *)
Definition unmount_provider (w : World) : World := temp_clear w.

(** ** The hook *)

(** What one component instance keeps between renders. *)
Record HookState := mkHook {
  isInitiallyVisible : option bool;   (* the ref; [None] is [undefined] *)
  isVisible : option bool;            (* the state cell; [None] before the first render *)
  setIsVisible : VisibilityCallback   (* the setter of the state cell *)
}.

(** The hook state of a component that has not rendered yet. *)
Definition fresh_hook (setter : VisibilityCallback) : HookState :=
  mkHook None None setter.

(** A JavaScript number used as a condition. *)
Definition truthy (z : Z) : bool := negb (Z.eqb z 0).

(** [context.initiallyVisibleElements--] *)
Definition decrement_initiallyVisible (w : World) : World :=
  mkWorld (observerRef w) (observedNodes w) (tempNodes w)
          (initiallyVisibleElements w - 1)%Z (trace w).

(** One render of a component calling [useIntersectionObserver]: the
    check of [isInitiallyVisible] and the [useState] call. *)
Definition useIntersectionObserver (h : HookState) (w : World) : HookState * World :=
  let '(current, w') :=
    match isInitiallyVisible h with
    | None =>
        if truthy (initiallyVisibleElements w)
        then (true, decrement_initiallyVisible w)
        else (false, w)
    | Some _ => (false, w)
    end in
  (mkHook (Some current)
          (Some (match isVisible h with Some v => v | None => current end))
          (setIsVisible h),
   w').

(** The answer of the initial-visibility check, as left in the ref. *)
Definition claim (h : HookState) : bool :=
  match isInitiallyVisible h with Some true => true | _ => false end.

(** The ref callback returned by the hook. *)
Definition observeRef (stop : bool) (h : HookState) (n : option Element)
           (w : World) : World :=
  if claim h && stop then w
  else registerObserver n (setIsVisible h) stop w.

(** ** Runs *)

Inductive Op :=
| OpRegister (n : option Element) (cb : VisibilityCallback) (stop : bool)
| OpRootRef (rootMargin : option string) (threshold : Threshold)
            (n : option HTMLElement)
| OpTick (entries : list IntersectionObserverEntry)
| OpUnmount
| OpRender (h : HookState).

Section Runs.

Variable host : Host.

Definition step (w : World) (op : Op) : Outcome :=
  match op with
  | OpRegister n cb stop => Done (registerObserver n cb stop w)
  | OpRootRef rootMargin threshold n => rootRef host rootMargin threshold n w
  | OpTick entries => Done (onIntersection entries w)
  | OpUnmount => Done (unmount_provider w)
  | OpRender h => Done (snd (useIntersectionObserver h w))
  end.

(** A thrown error leaves the world as it was at the throw and the next
    operation goes on from there. *)
Definition run (ops : list Op) (w : World) : World :=
  fold_left (fun w op => world_of (step w op)) ops w.

End Runs.

(** ** Vocabulary of the statements *)

(** The sensor exists. *)
Definition is_live (w : World) : bool :=
  match observerRef w with Some _ => true | None => false end.

(** [trace w'] is [trace w] followed by [evs]. *)
Definition extends (w w' : World) (evs : list Event) : Prop :=
  trace w' = trace w ++ evs.

(** The event is an invocation of the callback stored for [h]. *)
Definition calls (h : Element) (ev : Event) : bool :=
  match ev with EvCall n _ _ => Nat.eqb n h | _ => false end.

(** ... with the argument [b]. *)
Definition calls_with (h : Element) (b : bool) (ev : Event) : bool :=
  match ev with EvCall n _ b' => Nat.eqb n h && Bool.eqb b' b | _ => false end.

(** The event takes [h] off the sensor or out of the registry. *)
Definition removes (h : Element) (ev : Event) : bool :=
  match ev with
  | EvUnobserve n | EvDelete n => Nat.eqb n h
  | _ => false
  end.

(** The event is [observe(h)]. *)
Definition subscribes (h : Element) (ev : Event) : bool :=
  match ev with EvObserve n => Nat.eqb n h | _ => false end.

(** Between [w] and [w'] no callback stored for [h] was invoked. *)
Definition quiet (h : Element) (w w' : World) : Prop :=
  exists evs, extends w w' evs /\ Forall (fun ev => calls h ev = false) evs.

(** What retiring [h] emits: [unobserve] when a sensor exists, then
    [delete]. *)
Definition retirement (live : bool) (h : Element) : list Event :=
  if live then [EvUnobserve h; EvDelete h] else [EvDelete h].

(** The key of the first entry, in iteration order, whose callback is the
    function [cb]. *)
Fixpoint first_with_callback (cb : VisibilityCallback) (m : JsMap.t) : option Element :=
  match m with
  | [] => None
  | (k, o) :: rest =>
      if same_function (visibilityCallback o) cb then Some k
      else first_with_callback cb rest
  end.

(** [h] is neither in the registry nor waiting in the pending queue. *)
Definition untracked (h : Element) (w : World) : Prop :=
  JsMap.get h (observedNodes w) = None /\
  Forall (fun t => node t <> h) (tempNodes w).

(** The operation is a registration of the element [h]. *)
Definition registers (h : Element) (op : Op) : bool :=
  match op with
  | OpRegister (Some n) _ _ => Nat.eqb n h
  | _ => false
  end.

(** The sensor observes each of its targets once, and only elements of the
    registry. *)
Definition sensor_within (w : World) : Prop :=
  forall io, observerRef w = Some io ->
    NoDup (io_targets io) /\
    forall n, In n (io_targets io) -> JsMap.has n (observedNodes w) = true.

(** The registry after the entries of a pending queue were [set] in turn. *)
Definition flushed (ts : list TempNode) (m : JsMap.t) : JsMap.t :=
  fold_left (fun m t => JsMap.set (node t) (temp_options t) m) ts m.

(** What holds of the provider's refs between any two operations. *)
Record invariant (w : World) : Prop := mkInvariant {
  inv_registry : JsMap.ok (observedNodes w);
  inv_pending_empty : is_live w = true -> tempNodes w = [];
  inv_pending_fresh :
    Forall (fun t => JsMap.get (node t) (observedNodes w) = None) (tempNodes w);
  inv_targets : sensor_within w
}.

(** The registrations of a list of elements, in order. *)
Definition register_all (rs : list TempNode) (w : World) : World :=
  fold_left (fun w r =>
               registerObserver (Some (node r)) (temp_visibilityCallback r)
                                (temp_stopObservingOnceVisible r) w)
            rs w.

Section Configuration.

Variable host : Host.

(** The worlds a provider can be in. *)
Inductive reachable : World -> Prop :=
| reachable_initial (n : option Z) : reachable (initial n)
| reachable_step (w : World) (op : Op) :
    reachable w -> reachable (world_of (step host w op)).

(** The configured root margin has a positive offset: it is a non-empty
    string, and one of its space-separated values parses to a number above
    zero. *)
Definition has_positive_offset (rootMargin : option string) : Prop :=
  exists s value,
    rootMargin = Some s /\ s <> EmptyString /\
    In value (split_on_space s) /\ parseFloat_positive host value = true.

End Configuration.

(** The root scrolls: its overflow computes to ["auto"], in both axes or in
    one of them. *)
Definition has_auto_overflow (root : HTMLElement) : Prop :=
  overflow (computedStyle root) = "auto" \/
  overflowY (computedStyle root) = "auto" \/
  overflowX (computedStyle root) = "auto".

(** The first render of a row of new components, one after the other:
    their hook states, in order, and the world they leave. *)
Fixpoint mount_all (setters : list VisibilityCallback) (w : World)
  : list HookState * World :=
  match setters with
  | [] => ([], w)
  | setter :: rest =>
      let '(h, w1) := useIntersectionObserver (fresh_hook setter) w in
      let '(hs, w2) := mount_all rest w1 in
      (h :: hs, w2)
  end.

(** ** Sample values

    The provider as [IntersectionObserverExample] sets it up
    ([rootMargin="1000px 0px"], a container with [overflow: auto]), and a
    few elements and callbacks for the examples. *)

Module Sample.

(** Stands for [parseFloat(value) > 0] on margins written as a digit string
    and a unit: the value starts with a digit other than zero. *)
Definition parseFloat_positive (value : string) : bool :=
  match value with
  | String c _ => Nat.ltb 48 (nat_of_ascii c) && Nat.leb (nat_of_ascii c) 57
  | EmptyString => false
  end.

(** Stands for the constructor's check of its options: the margin has at
    most four values, each a decimal number followed by [px] or [%], and
    every threshold lies between 0 and 1. *)
Definition is_digit (c : ascii) : bool :=
  Nat.leb 48 (nat_of_ascii c) && Nat.leb (nat_of_ascii c) 57.

Fixpoint digits_and_points (s : string) : nat * nat :=
  match s with
  | EmptyString => (0, 0)
  | String c rest =>
      let '(digits, points) := digits_and_points rest in
      if is_digit c then (S digits, points)
      else if Ascii.eqb c "."%char then (digits, S points)
      else (digits, 2)
  end.

Definition decimal_number (s : string) : bool :=
  let unsigned :=
    match s with
    | String c rest =>
        if Ascii.eqb c "-"%char || Ascii.eqb c "+"%char then rest else s
    | EmptyString => s
    end in
  let '(digits, points) := digits_and_points unsigned in
  Nat.leb 1 digits && Nat.leb points 1.

Definition pixels_or_percent (value : string) : bool :=
  let n := String.length value in
  (Nat.leb 3 n && String.eqb (substring (n - 2) 2 value) "px"
   && decimal_number (substring 0 (n - 2) value))
  || (Nat.leb 2 n && String.eqb (substring (n - 1) 1 value) "%"
      && decimal_number (substring 0 (n - 1) value)).

Definition margin_accepted (rootMargin : option string) : bool :=
  match rootMargin with
  | None => true
  | Some EmptyString => true
  | Some s =>
      Nat.leb (List.length (split_on_space s)) 4
      && forallb pixels_or_percent (split_on_space s)
  end.

Definition in_unit_interval (x : QArith_base.Q) : bool :=
  QArith_base.Qle_bool (QArith_base.Qmake 0 1) x
  && QArith_base.Qle_bool x (QArith_base.Qmake 1 1).

Definition threshold_accepted (threshold : Threshold) : bool :=
  match threshold with
  | ThresholdUndefined => true
  | ThresholdNumber x => in_unit_interval x
  | ThresholdArray xs => forallb in_unit_interval xs
  end.

Definition observer_error (rootMargin : option string) (threshold : Threshold)
  : option string :=
  if negb (margin_accepted rootMargin)
  then Some "Failed to construct 'IntersectionObserver': rootMargin must be specified in pixels or percent."
  else if negb (threshold_accepted threshold)
  then Some "Failed to construct 'IntersectionObserver': Threshold values must be numbers between 0 and 1"
  else None.

Definition host : Host := mkHost parseFloat_positive observer_error.

Definition rootMargin : option string := Some "1000px 0px".

(** [threshold={0}] *)
Definition threshold : Threshold := ThresholdNumber (QArith_base.Qmake 0 1).

(** The container of the example, [overflow: auto]. *)
Definition container : HTMLElement := mkRoot 1000 (mkStyle "auto" "auto" "auto").

(** A root that does not scroll. *)
Definition plain_root : HTMLElement := mkRoot 1001 (mkStyle "visible" "visible" "visible").

(** The state setter of the [k]-th component instance: the setters of two
    instances look alike and are different function objects. *)
Definition setIsVisible_of (k : nat) : VisibilityCallback :=
  mkCallback k "setIsVisible".

Definition attach : Op := OpRootRef rootMargin threshold (Some container).

End Sample.

(** ** Vocabulary of the further properties *)

(** The events appended to the trace between [w] and a later [w']. *)
Definition emitted (w w' : World) : list Event :=
  skipn (List.length (trace w)) (trace w').

(** The values the callback stored for [h] was invoked with, in order. *)
Fixpoint delivered (h : Element) (evs : list Event) : list bool :=
  match evs with
  | [] => []
  | EvCall n _ b :: rest =>
      if Nat.eqb n h then b :: delivered h rest else delivered h rest
  | _ :: rest => delivered h rest
  end.

(** What dispatching the pair [e] emits when the registry is [m]. *)
Definition pair_events (live : bool) (m : JsMap.t)
           (e : IntersectionObserverEntry) : list Event :=
  match JsMap.get (target e) m with
  | Some o =>
      EvCall (target e) (visibilityCallback o) (isIntersecting e)
        :: (if isIntersecting e && stopObservingOnceVisible o
            then retirement live (target e) else [])
  | None => []
  end.

(** The tick [es] reports the element [k] as intersecting. *)
Definition reported (es : list IntersectionObserverEntry) (k : Element) : bool :=
  existsb (fun e => Nat.eqb (target e) k && isIntersecting e) es.

(** The registry entry is a one-shot entry that the tick [es] reports as
    intersecting. *)
Definition retired_by (es : list IntersectionObserverEntry)
           (entry : Element * NodeOptions) : bool :=
  stopObservingOnceVisible (snd entry) && reported es (fst entry).

(** The registry entries of a list of registrations. *)
Definition entries_of (rs : list TempNode) : JsMap.t :=
  map (fun t => (node t, temp_options t)) rs.

(** [h] is in a well-formed registry as a one-shot element with callback
    [cb], and is not waiting in the pending queue. *)
Definition armed (h : Element) (cb : VisibilityCallback) (w : World) : Prop :=
  JsMap.ok (observedNodes w) /\
  JsMap.get h (observedNodes w) = Some (mkOptions cb true) /\
  Forall (fun t => node t <> h) (tempNodes w).

(** [false], any number of times, then possibly [true] once. *)
Definition false_then_true (l : list bool) : Prop :=
  exists k, l = repeat false k \/ l = repeat false k ++ [true].

(** The operation is a render of a consumer. *)
Definition is_render (op : Op) : bool :=
  match op with OpRender _ => true | _ => false end.

(** The operation is a sensor tick. *)
Definition is_tick (op : Op) : bool :=
  match op with OpTick _ => true | _ => false end.

(** The values of all callback invocations among the events, in order,
    whichever element they were made for. *)
Fixpoint call_values (evs : list Event) : list bool :=
  match evs with
  | [] => []
  | EvCall _ _ b :: rest => b :: call_values rest
  | _ :: rest => call_values rest
  end.

(** ** [DeferredRenderWrapper]

    One render of the component: the hook is called with
    [stopObservingOnceVisible = true], and the children are in the output
    iff the state cell holds [true].  What is rendered is the first
    component of the result; the [div]'s ref callback is
    [observeRef true] on the hook state of the render. *)
Definition DeferredRenderWrapper {C : Type} (children : C) (h : HookState) (w : World)
  : option C * (HookState * World) :=
  let hw := useIntersectionObserver h w in
  ((match isVisible (fst hw) with Some true => Some children | _ => None end), hw).

(** [k] further renders of the same instance, from the output [out] of the
    last render: the last output, hook state and world. *)
Fixpoint rerender {C : Type} (children : C) (k : nat) (out : option C)
         (h : HookState) (w : World) : option C * (HookState * World) :=
  match k with
  | O => (out, (h, w))
  | S k' =>
      let '(out', (h', w')) := DeferredRenderWrapper children h w in
      rerender children k' out' h' w'
  end.

(** ** Tactics *)

(** The invariant of a world that is given in full, by evaluation. *)
Ltac evaluate_NoDup :=
  cbv; repeat (constructor; [intros H; repeat (destruct H as [H|H]; [discriminate H|]); exact H|]);
  constructor.

Ltac evaluate_invariant :=
  split;
  [ unfold JsMap.ok; evaluate_NoDup
  | intros _; reflexivity
  | cbv; repeat constructor
  | intros io Hio; cbv in Hio; injection Hio as <-; split;
    [ evaluate_NoDup
    | intros n Hn; cbv in Hn;
      repeat (destruct Hn as [Hn|Hn]; [subst n; reflexivity|]); destruct Hn ] ].

(** The same for a world without a sensor. *)
Ltac evaluate_invariant_detached :=
  split;
  [ unfold JsMap.ok; evaluate_NoDup
  | intros Hlive; discriminate Hlive
  | cbv; repeat constructor
  | intros io Hio; discriminate Hio ].

(** * Properties *)

(** ** The registry map *)

Module JsMapFacts.
Import JsMap.

Lemma get_None_keys (k : Element) (m : t) :
  get k m = None <-> ~ In k (keys m).
Proof.
  induction m as [|[k' v] rest IH]; simpl.
  - tauto.
  - destruct (Nat.eqb_spec k' k) as [->|Hne].
    + split; [discriminate | intros H; exfalso; apply H; now left].
    + rewrite IH. tauto.
Qed.

Lemma get_Some_In (k : Element) (v : NodeOptions) (m : t) :
  get k m = Some v -> In (k, v) m.
Proof.
  induction m as [|[k' v'] rest IH]; simpl; [discriminate|].
  destruct (Nat.eqb_spec k' k) as [->|Hne].
  - intros [= ->]. now left.
  - intros H. right. now apply IH.
Qed.

Lemma In_get (k : Element) (v : NodeOptions) (m : t) :
  ok m -> In (k, v) m -> get k m = Some v.
Proof.
  unfold ok. induction m as [|[k' v'] rest IH]; simpl; [tauto|].
  intros Hnd [Heq | Hin].
  - injection Heq as -> ->. now rewrite Nat.eqb_refl.
  - inversion_clear Hnd as [|? ? Hnotin Hrest].
    destruct (Nat.eqb_spec k' k) as [->|Hne].
    + exfalso. apply Hnotin. change k with (fst (k, v)). now apply in_map.
    + now apply IH.
Qed.

Lemma has_true (k : Element) (m : t) :
  has k m = true <-> In k (keys m).
Proof.
  unfold has. destruct (get k m) eqn:E.
  - split; [intros _ | reflexivity].
    apply get_Some_In in E. change k with (fst (k, n)). now apply in_map.
  - apply get_None_keys in E. split; [discriminate | tauto].
Qed.

Lemma has_false (k : Element) (m : t) :
  has k m = false <-> get k m = None.
Proof. unfold has. destruct (get k m); split; congruence. Qed.

Lemma get_set_same (k : Element) (v : NodeOptions) (m : t) :
  get k (set k v m) = Some v.
Proof.
  induction m as [|[k' v'] rest IH]; simpl.
  - now rewrite Nat.eqb_refl.
  - destruct (Nat.eqb k' k) eqn:E; simpl.
    + now rewrite Nat.eqb_refl.
    + now rewrite E.
Qed.

Lemma get_set_other (k k' : Element) (v : NodeOptions) (m : t) :
  k <> k' -> get k (set k' v m) = get k m.
Proof.
  intros Hne. induction m as [|[k0 v0] rest IH]; simpl.
  - destruct (Nat.eqb_spec k' k); congruence.
  - destruct (Nat.eqb_spec k0 k') as [->|Hne0]; simpl.
    + destruct (Nat.eqb_spec k' k); congruence.
    + destruct (Nat.eqb_spec k0 k); congruence.
Qed.

Lemma get_delete_other (k k' : Element) (m : t) :
  k <> k' -> get k (delete k' m) = get k m.
Proof.
  intros Hne. induction m as [|[k0 v0] rest IH]; simpl; [reflexivity|].
  destruct (Nat.eqb_spec k0 k') as [->|Hne0]; simpl.
  - destruct (Nat.eqb_spec k' k); congruence.
  - destruct (Nat.eqb_spec k0 k); congruence.
Qed.

Lemma delete_absent (k : Element) (m : t) :
  get k m = None -> delete k m = m.
Proof.
  induction m as [|[k0 v0] rest IH]; simpl; [reflexivity|].
  destruct (Nat.eqb k0 k); [discriminate|].
  intros H. now rewrite IH.
Qed.

Lemma keys_set_new (k : Element) (v : NodeOptions) (m : t) :
  get k m = None -> set k v m = m ++ [(k, v)].
Proof.
  induction m as [|[k0 v0] rest IH]; simpl; [reflexivity|].
  destruct (Nat.eqb k0 k); [discriminate|].
  intros H. now rewrite IH.
Qed.

Lemma keys_set_old (k : Element) (v : NodeOptions) (m : t) :
  has k m = true -> keys (set k v m) = keys m.
Proof.
  unfold has.
  induction m as [|[k0 v0] rest IH]; simpl; [discriminate|].
  destruct (Nat.eqb_spec k0 k) as [->|Hne]; simpl; [reflexivity|].
  intros H. now rewrite IH.
Qed.

Lemma In_keys_delete (k k' : Element) (m : t) :
  In k (keys (delete k' m)) -> In k (keys m).
Proof.
  induction m as [|[k0 v0] rest IH]; simpl; [tauto|].
  destruct (Nat.eqb k0 k'); simpl; tauto.
Qed.

Lemma ok_delete (k : Element) (m : t) : ok m -> ok (delete k m).
Proof.
  unfold ok. induction m as [|[k0 v0] rest IH]; simpl; [trivial|].
  intros Hnd. inversion_clear Hnd as [|? ? Hnotin Hrest].
  destruct (Nat.eqb k0 k); simpl; [assumption|].
  constructor; [|now apply IH].
  intros Hin. apply Hnotin. eapply In_keys_delete. exact Hin.
Qed.

Lemma ok_set (k : Element) (v : NodeOptions) (m : t) : ok m -> ok (set k v m).
Proof.
  intros Hok. destruct (has k m) eqn:E.
  - unfold ok. now rewrite keys_set_old.
  - apply has_false in E. rewrite keys_set_new by exact E.
    unfold ok, keys in *. rewrite map_app. simpl.
    apply NoDup_app; [assumption | repeat constructor; simpl; tauto |].
    intros x Hx [<-|[]]. now apply get_None_keys in E.
Qed.

Lemma get_delete_same (k : Element) (m : t) :
  ok m -> get k (delete k m) = None.
Proof.
  unfold ok. induction m as [|[k0 v0] rest IH]; simpl; [reflexivity|].
  intros Hnd. inversion_clear Hnd as [|? ? Hnotin Hrest].
  destruct (Nat.eqb_spec k0 k) as [->|Hne]; simpl.
  - now apply get_None_keys.
  - destruct (Nat.eqb_spec k0 k); [congruence | now apply IH].
Qed.

(** Deleting the key of an entry takes out that entry and nothing else. *)
Lemma delete_middle (k : Element) (v : NodeOptions) (l1 l2 : t) :
  ok (l1 ++ (k, v) :: l2) -> delete k (l1 ++ (k, v) :: l2) = l1 ++ l2.
Proof.
  unfold ok. induction l1 as [|[k0 v0] rest IH]; simpl.
  - now rewrite Nat.eqb_refl.
  - intros Hnd. inversion_clear Hnd as [|? ? Hnotin Hrest].
    destruct (Nat.eqb_spec k0 k) as [->|Hne].
    + exfalso. apply Hnotin. unfold keys. rewrite map_app, in_app_iff.
      right. now left.
    + now rewrite IH.
Qed.

Lemma delete_stays_absent (h k : Element) (m : t) :
  get h m = None -> get h (delete k m) = None.
Proof.
  rewrite !get_None_keys. intros H Hin. apply H. eapply In_keys_delete. exact Hin.
Qed.

Lemma get_snoc (h k : Element) (v : NodeOptions) (m : t) :
  get h m = None -> h <> k -> get h (m ++ [(k, v)]) = None.
Proof.
  intros Hget Hne. induction m as [|[k0 v0] rest IH]; simpl in *.
  - destruct (Nat.eqb_spec k h); congruence.
  - destruct (Nat.eqb k0 h); [discriminate | now apply IH].
Qed.

End JsMapFacts.

(** ** Traces *)

Lemma extends_refl (w : World) : extends w w [].
Proof. unfold extends. now rewrite app_nil_r. Qed.

Lemma extends_trans (w1 w2 w3 : World) (a b : list Event) :
  extends w1 w2 a -> extends w2 w3 b -> extends w1 w3 (a ++ b).
Proof. unfold extends. intros H1 H2. now rewrite H2, H1, app_assoc. Qed.

Lemma extends_inj (w w' : World) (a b : list Event) :
  extends w w' a -> extends w w' b -> a = b.
Proof. unfold extends. intros H1 H2. rewrite H1 in H2. now apply app_inv_head in H2. Qed.

Lemma quiet_refl (h : Element) (w : World) : quiet h w w.
Proof. exists []. split; [apply extends_refl | constructor]. Qed.

Lemma quiet_trans (h : Element) (w1 w2 w3 : World) :
  quiet h w1 w2 -> quiet h w2 w3 -> quiet h w1 w3.
Proof.
  intros (a & Ha & Fa) (b & Hb & Fb). exists (a ++ b). split.
  - eapply extends_trans; eassumption.
  - apply Forall_app. now split.
Qed.

(** ** The unregistration loop finds the first match *)

Lemma unregister_loop_first (m : JsMap.t) (cb : VisibilityCallback) (w : World) :
  unregister_loop m cb w =
  match first_with_callback cb m with
  | Some k => registry_delete k (sensor_unobserve k w)
  | None => w
  end.
Proof.
  induction m as [|[k o] rest IH]; simpl; [reflexivity|].
  destruct (same_function (visibilityCallback o) cb); [reflexivity | exact IH].
Qed.

Lemma first_with_callback_None (cb : VisibilityCallback) (m : JsMap.t) :
  first_with_callback cb m = None <->
  Forall (fun e => same_function (visibilityCallback (snd e)) cb = false) m.
Proof.
  induction m as [|[k o] rest IH]; simpl.
  - split; [constructor | reflexivity].
  - destruct (same_function (visibilityCallback o) cb) eqn:E.
    + split; [discriminate|]. intros H. inversion_clear H. simpl in *. congruence.
    + rewrite IH. split; [now constructor | intros H; now inversion_clear H].
Qed.

Lemma first_with_callback_Some (cb : VisibilityCallback) (m : JsMap.t) (k : Element) :
  first_with_callback cb m = Some k <->
  exists l1 o l2,
    m = l1 ++ (k, o) :: l2 /\
    same_function (visibilityCallback o) cb = true /\
    Forall (fun e => same_function (visibilityCallback (snd e)) cb = false) l1.
Proof.
  revert k. induction m as [|[k0 o0] rest IH]; intros k; simpl.
  - split; [discriminate|]. intros (l1 & o & l2 & H & _). now destruct l1.
  - destruct (same_function (visibilityCallback o0) cb) eqn:E.
    + split.
      * intros [= <-]. exists [], o0, rest. repeat split; [assumption | constructor].
      * intros (l1 & o & l2 & H & Ho & Hl1). destruct l1 as [|e l1]; simpl in H.
        -- now injection H as -> _ _.
        -- injection H as <- _. inversion_clear Hl1. simpl in *. congruence.
    + rewrite IH. split.
      * intros (l1 & o & l2 & -> & Ho & Hl1).
        exists ((k0, o0) :: l1), o, l2. repeat split; [assumption |].
        constructor; assumption.
      * intros (l1 & o & l2 & H & Ho & Hl1). destruct l1 as [|e l1]; simpl in H.
        -- injection H as <- <- _. congruence.
        -- injection H as _ ->. inversion_clear Hl1. now exists l1, o, l2.
Qed.

Lemma first_with_callback_key (cb : VisibilityCallback) (m : JsMap.t) (k : Element) :
  first_with_callback cb m = Some k -> In k (JsMap.keys m).
Proof.
  intros (l1 & o & l2 & -> & _)%first_with_callback_Some.
  unfold JsMap.keys. rewrite map_app, in_app_iff. right. now left.
Qed.

(** ** What the two compound updates do *)

(** [observe] followed by [set]. *)
Lemma subscribe_effect (n : Element) (o : NodeOptions) (w : World) :
  let w' := registry_set n o (sensor_observe n w) in
  observedNodes w' = JsMap.set n o (observedNodes w) /\
  tempNodes w' = tempNodes w /\
  is_live w' = is_live w /\
  initiallyVisibleElements w' = initiallyVisibleElements w /\
  extends w w' (if is_live w then [EvObserve n; EvSet n] else [EvSet n]).
Proof.
  unfold registry_set, sensor_observe, is_live, extends.
  destruct (observerRef w) eqn:E; simpl; rewrite ?E; repeat split.
  all: now rewrite <- app_assoc.
Qed.

(** [unobserve] followed by [delete]. *)
Lemma retire_effect (n : Element) (w : World) :
  let w' := registry_delete n (sensor_unobserve n w) in
  observedNodes w' = JsMap.delete n (observedNodes w) /\
  tempNodes w' = tempNodes w /\
  is_live w' = is_live w /\
  initiallyVisibleElements w' = initiallyVisibleElements w /\
  extends w w' (retirement (is_live w) n).
Proof.
  unfold registry_delete, sensor_unobserve, is_live, extends, retirement.
  destruct (observerRef w) eqn:E; simpl; rewrite ?E; repeat split.
  all: now rewrite <- app_assoc.
Qed.

Lemma retirement_quiet (live : bool) (n h : Element) :
  Forall (fun ev => calls h ev = false) (retirement live n).
Proof. destruct live; repeat constructor. Qed.

(** ** One pair of a tick *)

Lemma dispatch_absent (w : World) (e : IntersectionObserverEntry) :
  JsMap.get (target e) (observedNodes w) = None -> dispatch_entry w e = w.
Proof. unfold dispatch_entry. now intros ->. Qed.

(** A pair for a registered element that does not retire it: the callback
    runs and nothing else changes. *)
Lemma dispatch_keep (w : World) (e : IntersectionObserverEntry) (o : NodeOptions) :
  JsMap.get (target e) (observedNodes w) = Some o ->
  isIntersecting e && stopObservingOnceVisible o = false ->
  let w' := dispatch_entry w e in
  observedNodes w' = observedNodes w /\
  tempNodes w' = tempNodes w /\
  is_live w' = is_live w /\
  extends w w' [EvCall (target e) (visibilityCallback o) (isIntersecting e)].
Proof.
  unfold dispatch_entry. intros -> ->. simpl. repeat split.
Qed.

(** A pair that retires its element: the callback runs, then the element
    leaves the sensor and the registry. *)
Lemma dispatch_retire (w : World) (e : IntersectionObserverEntry) (o : NodeOptions) :
  JsMap.get (target e) (observedNodes w) = Some o ->
  isIntersecting e && stopObservingOnceVisible o = true ->
  let w' := dispatch_entry w e in
  observedNodes w' = JsMap.delete (target e) (observedNodes w) /\
  tempNodes w' = tempNodes w /\
  is_live w' = is_live w /\
  extends w w' (EvCall (target e) (visibilityCallback o) (isIntersecting e)
                  :: retirement (is_live w) (target e)).
Proof.
  unfold dispatch_entry. intros -> ->.
  set (w1 := invoke (target e) o (isIntersecting e) w).
  destruct (retire_effect (target e) w1) as (Hm & Ht & Hl & _ & Hx).
  cbv zeta in *. repeat split; try assumption.
  change (EvCall (target e) (visibilityCallback o) (isIntersecting e)
            :: retirement (is_live w) (target e))
    with ([EvCall (target e) (visibilityCallback o) (isIntersecting e)]
            ++ retirement (is_live w1) (target e)).
  eapply extends_trans; [|exact Hx]. reflexivity.
Qed.

(** Whatever the pair, the pending queue and the sensor's existence are left
    alone, the registry only shrinks by the pair's own element, and only the
    pair's own element is called, unobserved or deleted. *)
Lemma dispatch_frame (w : World) (e : IntersectionObserverEntry) :
  let w' := dispatch_entry w e in
  tempNodes w' = tempNodes w /\
  is_live w' = is_live w /\
  (JsMap.ok (observedNodes w) -> JsMap.ok (observedNodes w')) /\
  (forall h, h <> target e ->
     JsMap.get h (observedNodes w') = JsMap.get h (observedNodes w)) /\
  exists evs, extends w w' evs /\
    forall h, h <> target e ->
      Forall (fun ev => calls h ev = false /\ removes h ev = false) evs.
Proof.
  destruct (JsMap.get (target e) (observedNodes w)) as [o|] eqn:G.
  - destruct (isIntersecting e && stopObservingOnceVisible o) eqn:B.
    + destruct (dispatch_retire w e o G B) as (Hm & Ht & Hl & Hx).
      cbv zeta in *. rewrite Hm. repeat split; try assumption.
      * apply JsMapFacts.ok_delete.
      * intros h Hne. now apply JsMapFacts.get_delete_other.
      * eexists. split; [exact Hx|]. intros h Hne.
        apply Nat.eqb_neq in Hne. rewrite Nat.eqb_sym in Hne.
        unfold retirement. destruct (is_live w); repeat constructor; simpl; assumption.
    + destruct (dispatch_keep w e o G B) as (Hm & Ht & Hl & Hx).
      cbv zeta in *. rewrite Hm. repeat split; try assumption; try tauto.
      eexists. split; [exact Hx|]. intros h Hne.
      apply Nat.eqb_neq in Hne. rewrite Nat.eqb_sym in Hne.
      repeat constructor; simpl; assumption.
  - simpl. rewrite (dispatch_absent w e G). repeat split; try tauto.
    exists []. split; [apply extends_refl | constructor].
Qed.

(** A tick is the composition of its pairs. *)
Lemma onIntersection_cons (e : IntersectionObserverEntry)
      (es : list IntersectionObserverEntry) (w : World) :
  onIntersection (e :: es) w = onIntersection es (dispatch_entry w e).
Proof. reflexivity. Qed.

Lemma onIntersection_app (es1 es2 : list IntersectionObserverEntry) (w : World) :
  onIntersection (es1 ++ es2) w = onIntersection es2 (onIntersection es1 w).
Proof. unfold onIntersection. apply fold_left_app. Qed.

(** ** The sensor's targets *)

Lemma In_observe (n x : Element) (io : IntersectionObserver) :
  In x (io_targets (observe n io)) <-> x = n \/ In x (io_targets io).
Proof.
  unfold observe. destruct (existsb (Nat.eqb n) (io_targets io)) eqn:E; simpl.
  - apply existsb_exists in E as (y & Hy & ->%Nat.eqb_eq).
    split; [tauto | intros [->|]; assumption].
  - rewrite in_app_iff. simpl. intuition congruence.
Qed.

Lemma NoDup_observe (n : Element) (io : IntersectionObserver) :
  NoDup (io_targets io) -> NoDup (io_targets (observe n io)).
Proof.
  unfold observe. destruct (existsb (Nat.eqb n) (io_targets io)) eqn:E; simpl; [trivial|].
  intros Hnd. apply NoDup_app; [assumption | repeat constructor; simpl; tauto |].
  intros x Hx [<-|[]].
  assert (existsb (Nat.eqb n) (io_targets io) = true); [|congruence].
  apply existsb_exists. exists n. split; [assumption | apply Nat.eqb_refl].
Qed.

Lemma In_unobserve (n x : Element) (io : IntersectionObserver) :
  In x (io_targets (unobserve n io)) <-> x <> n /\ In x (io_targets io).
Proof.
  unfold unobserve. simpl. rewrite filter_In, negb_true_iff, Nat.eqb_neq.
  intuition congruence.
Qed.

Lemma subscribe_within (n : Element) (o : NodeOptions) (w : World) :
  sensor_within w -> sensor_within (registry_set n o (sensor_observe n w)).
Proof.
  unfold sensor_within, registry_set, sensor_observe.
  intros H io'. destruct (observerRef w) as [io|] eqn:E; simpl; [|rewrite E; discriminate].
  intros [= <-]. destruct (H io eq_refl) as [Hnd Hin]. split.
  - now apply NoDup_observe.
  - intros x [->|Hx]%In_observe; unfold JsMap.has.
    + now rewrite JsMapFacts.get_set_same.
    + destruct (Nat.eq_dec x n) as [->|Hne].
      * now rewrite JsMapFacts.get_set_same.
      * rewrite JsMapFacts.get_set_other by assumption. now apply Hin.
Qed.

Lemma retire_within (n : Element) (w : World) :
  sensor_within w -> sensor_within (registry_delete n (sensor_unobserve n w)).
Proof.
  unfold sensor_within, registry_delete, sensor_unobserve.
  intros H io'. destruct (observerRef w) as [io|] eqn:E; simpl; [|rewrite E; discriminate].
  intros [= <-]. destruct (H io eq_refl) as [Hnd Hin]. split.
  - simpl. now apply NoDup_filter.
  - intros x [Hne Hx]%In_unobserve. unfold JsMap.has.
    rewrite JsMapFacts.get_delete_other by assumption. now apply Hin.
Qed.

(** ** The flush of the pending queue *)

Lemma flush_effect (ts : list TempNode) (w : World) :
  let w' := fold_left flush_one ts w in
  observedNodes w' = flushed ts (observedNodes w) /\
  tempNodes w' = tempNodes w /\
  is_live w' = is_live w /\
  initiallyVisibleElements w' = initiallyVisibleElements w /\
  extends w w'
    (flat_map (fun t => if is_live w then [EvObserve (node t); EvSet (node t)]
                        else [EvSet (node t)]) ts).
Proof.
  revert w. induction ts as [|t ts IH]; intros w; simpl.
  - repeat split. apply extends_refl.
  - destruct (subscribe_effect (node t) (temp_options t) w) as (Hm & Ht & Hl & Hc & Hx).
    destruct (IH (flush_one w t)) as (Hm' & Ht' & Hl' & Hc' & Hx').
    cbv zeta in *. unfold flush_one in *.
    rewrite Hm', Ht', Hl', Hc', Hm. repeat split; try assumption.
    rewrite Hl in Hx'. eapply extends_trans; eassumption.
Qed.

Lemma flush_within (ts : list TempNode) (w : World) :
  sensor_within w -> sensor_within (fold_left flush_one ts w).
Proof.
  revert w. induction ts as [|t ts IH]; intros w H; simpl; [assumption|].
  apply IH. now apply subscribe_within.
Qed.

Lemma flushed_ok (ts : list TempNode) (m : JsMap.t) :
  JsMap.ok m -> JsMap.ok (flushed ts m).
Proof.
  revert m. induction ts as [|t ts IH]; intros m H; simpl; [assumption|].
  apply IH. now apply JsMapFacts.ok_set.
Qed.

Lemma flushed_get_other (h : Element) (ts : list TempNode) (m : JsMap.t) :
  Forall (fun t => node t <> h) ts ->
  JsMap.get h (flushed ts m) = JsMap.get h m.
Proof.
  revert m. induction ts as [|t ts IH]; intros m H; simpl; [reflexivity|].
  inversion_clear H as [|? ? Hne Hts].
  rewrite IH by assumption. apply JsMapFacts.get_set_other. congruence.
Qed.

(** Every queued element is in the registry after the flush. *)
Lemma flushed_has (ts : list TempNode) (m : JsMap.t) (n : Element) :
  In n (map node ts) \/ JsMap.has n m = true -> JsMap.has n (flushed ts m) = true.
Proof.
  revert m. induction ts as [|t ts IH]; intros m; simpl.
  - tauto.
  - intros H. apply IH. unfold JsMap.has.
    destruct (Nat.eq_dec n (node t)) as [->|Hne].
    + right. now rewrite JsMapFacts.get_set_same.
    + rewrite JsMapFacts.get_set_other by assumption.
      destruct H as [[Heq|Hin]|Hhas]; [congruence | now left | now right].
Qed.

(** ** The invariant *)

Lemma sensor_within_ext (w w' : World) :
  observerRef w' = observerRef w -> observedNodes w' = observedNodes w ->
  sensor_within w -> sensor_within w'.
Proof. unfold sensor_within. intros -> ->. trivial. Qed.

Lemma invariant_ext (w w' : World) :
  observerRef w' = observerRef w -> observedNodes w' = observedNodes w ->
  tempNodes w' = tempNodes w -> invariant w -> invariant w'.
Proof.
  intros Ho Hm Ht [H1 H2 H3 H4]. split.
  - now rewrite Hm.
  - unfold is_live. rewrite Ho, Ht. exact H2.
  - now rewrite Hm, Ht.
  - now apply (sensor_within_ext w).
Qed.

Lemma invariant_initial (n : option Z) : invariant (initial n).
Proof.
  split; simpl.
  - constructor.
  - reflexivity.
  - constructor.
  - intros io. simpl. discriminate.
Qed.

Lemma invariant_retire (n : Element) (w : World) :
  invariant w -> invariant (registry_delete n (sensor_unobserve n w)).
Proof.
  intros [H1 H2 H3 H4].
  destruct (retire_effect n w) as (Hm & Ht & Hl & _ & _). cbv zeta in *.
  split.
  - rewrite Hm. now apply JsMapFacts.ok_delete.
  - rewrite Hl, Ht. exact H2.
  - rewrite Hm, Ht. eapply Forall_impl; [|exact H3].
    intros t. apply JsMapFacts.delete_stays_absent.
  - now apply retire_within.
Qed.

Lemma invariant_subscribe (n : Element) (o : NodeOptions) (w : World) :
  invariant w -> tempNodes w = [] ->
  invariant (registry_set n o (sensor_observe n w)).
Proof.
  intros [H1 H2 H3 H4] Hempty.
  destruct (subscribe_effect n o w) as (Hm & Ht & Hl & _ & _). cbv zeta in *.
  split.
  - rewrite Hm. now apply JsMapFacts.ok_set.
  - now rewrite Ht.
  - rewrite Ht, Hempty. constructor.
  - now apply subscribe_within.
Qed.

Lemma invariant_register (n : option Element) (cb : VisibilityCallback)
      (stop : bool) (w : World) :
  invariant w -> invariant (registerObserver n cb stop w).
Proof.
  intros Hinv. destruct n as [n|]; simpl.
  - destruct (JsMap.has n (observedNodes w)) eqn:Hhas; [assumption|].
    destruct (observerRef w) as [io|] eqn:Ho.
    + apply invariant_subscribe; [assumption|].
      apply (inv_pending_empty w Hinv). unfold is_live. now rewrite Ho.
    + destruct Hinv as [H1 H2 H3 H4]. split; simpl.
      * assumption.
      * unfold is_live. simpl. rewrite Ho. discriminate.
      * apply Forall_app. split; [assumption|].
        constructor; [|constructor]. simpl. now apply JsMapFacts.has_false.
      * unfold sensor_within. simpl. intros io. rewrite Ho. discriminate.
  - rewrite unregister_loop_first.
    destruct (first_with_callback cb (observedNodes w)); [|assumption].
    now apply invariant_retire.
Qed.

Lemma invariant_dispatch (w : World) (e : IntersectionObserverEntry) :
  invariant w -> invariant (dispatch_entry w e).
Proof.
  intros Hinv. unfold dispatch_entry.
  destruct (JsMap.get (target e) (observedNodes w)) as [o|]; [|assumption].
  assert (invariant (invoke (target e) o (isIntersecting e) w)) as Hcall
      by (now apply (invariant_ext w)).
  destruct (isIntersecting e && stopObservingOnceVisible o); [|assumption].
  now apply invariant_retire.
Qed.

Lemma invariant_tick (es : list IntersectionObserverEntry) (w : World) :
  invariant w -> invariant (onIntersection es w).
Proof.
  revert w. induction es as [|e es IH]; intros w H; [assumption|].
  rewrite onIntersection_cons. apply IH. now apply invariant_dispatch.
Qed.

Lemma invariant_render (h : HookState) (w : World) :
  invariant w -> invariant (snd (useIntersectionObserver h w)).
Proof.
  intros Hinv. unfold useIntersectionObserver.
  destruct (isInitiallyVisible h); [assumption|].
  destruct (truthy (initiallyVisibleElements w)); [|assumption].
  now apply (invariant_ext w).
Qed.

(** ** Attaching and detaching the root *)

Section RootRef.

Variable host : Host.

Lemma positive_rootMargin_offset (rootMargin : option string) :
  positive_rootMargin host rootMargin = true <->
  has_positive_offset host rootMargin.
Proof.
  unfold positive_rootMargin, has_positive_offset.
  destruct rootMargin as [[|c s]|].
  - split; [discriminate|]. intros (s & v & [= <-] & Hne & _). congruence.
  - rewrite existsb_exists. split.
    + intros (v & Hin & Hv). exists (String c s), v. repeat split; [discriminate | assumption..].
    + intros (s' & v & [= <-] & _ & Hin & Hv). now exists v.
  - split; [discriminate|]. intros (s & v & H & _). discriminate.
Qed.

Lemma no_auto_overflow_spec (root : HTMLElement) :
  no_auto_overflow (computedStyle root) = false <-> has_auto_overflow root.
Proof.
  unfold no_auto_overflow, has_auto_overflow.
  rewrite !andb_false_iff, !negb_false_iff, !String.eqb_eq. tauto.
Qed.

(** A root that passes the check, with options the constructor accepts: the
    sensor is built on it and the pending queue is replayed into it. *)
Lemma rootRef_attach (rootMargin : option string) (threshold : Threshold)
      (root : HTMLElement) (w : World) :
  positive_rootMargin host rootMargin
    && no_auto_overflow (computedStyle root) = false ->
  observer_error host rootMargin threshold = None ->
  exists w',
    rootRef host rootMargin threshold (Some root) w = Done w' /\
    observedNodes w' = flushed (tempNodes w) (observedNodes w) /\
    tempNodes w' = [] /\
    is_live w' = true /\
    initiallyVisibleElements w' = initiallyVisibleElements w /\
    extends w w'
      (EvNewObserver (root_element root)
         :: flat_map (fun t => [EvObserve (node t); EvSet (node t)]) (tempNodes w)).
Proof.
  intros Hcheck Haccept. unfold rootRef. rewrite Hcheck, Haccept.
  set (w1 := new_observer root rootMargin threshold w).
  destruct (flush_effect (tempNodes w) w1) as (Hm & Ht & Hl & Hc & Hx).
  cbv zeta in *. change (is_live w1) with true in Hl, Hx.
  eexists. split; [reflexivity|]. split; [exact Hm|].
  split; [reflexivity|]. split; [exact Hl|]. split; [exact Hc|].
  unfold extends in *. simpl. rewrite Hx. simpl. now rewrite <- app_assoc.
Qed.

Lemma rootRef_throw (rootMargin : option string) (threshold : Threshold)
      (root : HTMLElement) (w : World) :
  positive_rootMargin host rootMargin
    && no_auto_overflow (computedStyle root) = true ->
  rootRef host rootMargin threshold (Some root) w = Thrown overflow_error w.
Proof. intros Hcheck. unfold rootRef. now rewrite Hcheck. Qed.

(** A root that passes the check, with options the constructor rejects: the
    constructor's exception leaves [rootRef], and the world is as it was. *)
Lemma rootRef_rejected (rootMargin : option string) (threshold : Threshold)
      (root : HTMLElement) (w : World) (message : string) :
  positive_rootMargin host rootMargin
    && no_auto_overflow (computedStyle root) = false ->
  observer_error host rootMargin threshold = Some message ->
  rootRef host rootMargin threshold (Some root) w = Thrown message w.
Proof. intros Hcheck Hreject. unfold rootRef. now rewrite Hcheck, Hreject. Qed.

(** However [rootRef] throws, it has not touched the world. *)
Lemma rootRef_outcomes (rootMargin : option string) (threshold : Threshold)
      (root : HTMLElement) (w : World) :
  (exists message, rootRef host rootMargin threshold (Some root) w = Thrown message w) \/
  (positive_rootMargin host rootMargin
     && no_auto_overflow (computedStyle root) = false /\
   observer_error host rootMargin threshold = None).
Proof.
  destruct (positive_rootMargin host rootMargin
            && no_auto_overflow (computedStyle root)) eqn:Hcheck.
  - left. exists overflow_error. now apply rootRef_throw.
  - destruct (observer_error host rootMargin threshold) as [message|] eqn:Hctor.
    + left. exists message. now apply rootRef_rejected.
    + now right.
Qed.

Lemma invariant_rootRef (rootMargin : option string) (threshold : Threshold)
      (n : option HTMLElement) (w : World) :
  invariant w -> invariant (world_of (rootRef host rootMargin threshold n w)).
Proof.
  intros Hinv. destruct n as [root|]; simpl.
  - destruct (positive_rootMargin host rootMargin
              && no_auto_overflow (computedStyle root)); simpl; [assumption|].
    destruct (observer_error host rootMargin threshold); simpl; [assumption|].
    set (w1 := new_observer root rootMargin threshold w).
    destruct (flush_effect (tempNodes w) w1) as (Hm & Ht & Hl & _ & _).
    cbv zeta in *. split; simpl.
    + rewrite Hm. apply flushed_ok. exact (inv_registry w Hinv).
    + reflexivity.
    + constructor.
    + apply (sensor_within_ext (fold_left flush_one (tempNodes w) w1)); try reflexivity.
      apply flush_within. unfold sensor_within, w1. simpl.
      intros io [= <-]. simpl. split; [constructor | intros n []].
  - unfold disconnect. destruct (observerRef w) eqn:Ho; [|assumption].
    destruct Hinv as [H1 H2 H3 H4]. split; simpl; try assumption.
    + discriminate.
    + unfold sensor_within. simpl. discriminate.
Qed.

Lemma invariant_step (w : World) (op : Op) :
  invariant w -> invariant (world_of (step host w op)).
Proof.
  intros Hinv. destruct op; simpl.
  - now apply invariant_register.
  - now apply invariant_rootRef.
  - now apply invariant_tick.
  - destruct Hinv as [H1 H2 H3 H4]. split; simpl.
    + exact H1.
    + reflexivity.
    + constructor.
    + exact H4.
  - now apply invariant_render.
Qed.

Lemma invariant_run (ops : list Op) (w : World) :
  invariant w -> invariant (run host ops w).
Proof.
  revert w. induction ops as [|op ops IH]; intros w H; [assumption|].
  simpl. apply IH. now apply invariant_step.
Qed.

Lemma reachable_invariant (w : World) :
  reachable host w -> invariant w.
Proof.
  induction 1 as [n|w op _ IH]; [apply invariant_initial | now apply invariant_step].
Qed.

Lemma reachable_run (ops : list Op) (w : World) :
  reachable host w -> reachable host (run host ops w).
Proof.
  revert w. induction ops as [|op ops IH]; intros w H; [assumption|].
  simpl. apply IH. now constructor.
Qed.

End RootRef.

(** ** An element that is not tracked stays silent *)

Lemma quiet_subscribe (h n : Element) (o : NodeOptions) (w : World) :
  quiet h w (registry_set n o (sensor_observe n w)).
Proof.
  destruct (subscribe_effect n o w) as (_ & _ & _ & _ & Hx).
  eexists. split; [exact Hx|]. destruct (is_live w); repeat constructor.
Qed.

Lemma quiet_retire (h n : Element) (w : World) :
  quiet h w (registry_delete n (sensor_unobserve n w)).
Proof.
  destruct (retire_effect n w) as (_ & _ & _ & _ & Hx).
  eexists. split; [exact Hx | apply retirement_quiet].
Qed.

Lemma untracked_register (h : Element) (n : option Element)
      (cb : VisibilityCallback) (stop : bool) (w : World) :
  untracked h w -> n <> Some h ->
  untracked h (registerObserver n cb stop w) /\
  quiet h w (registerObserver n cb stop w).
Proof.
  intros [Hget Htemp] Hn. destruct n as [n|]; simpl.
  - assert (h <> n) as Hne by congruence.
    destruct (JsMap.has n (observedNodes w)).
    { split; [now split | apply quiet_refl]. }
    destruct (observerRef w) as [io|] eqn:Ho.
    + split; [|apply quiet_subscribe].
      destruct (subscribe_effect n (mkOptions cb stop) w) as (Hm & Ht & _).
      cbv zeta in *. unfold untracked. rewrite Hm, Ht.
      split; [|assumption]. now rewrite JsMapFacts.get_set_other.
    + split.
      * split; simpl; [assumption|].
        apply Forall_app. split; [assumption|]. repeat constructor. simpl. congruence.
      * exists [EvPush n]. split; [reflexivity | repeat constructor].
  - rewrite unregister_loop_first.
    destruct (first_with_callback cb (observedNodes w)) as [k|] eqn:F.
    + split; [|apply quiet_retire].
      destruct (retire_effect k w) as (Hm & Ht & _).
      cbv zeta in *. unfold untracked. rewrite Hm, Ht.
      split; [|assumption]. now apply JsMapFacts.delete_stays_absent.
    + split; [now split | apply quiet_refl].
Qed.

Lemma untracked_dispatch (h : Element) (w : World) (e : IntersectionObserverEntry) :
  untracked h w ->
  untracked h (dispatch_entry w e) /\ quiet h w (dispatch_entry w e).
Proof.
  intros [Hget Htemp]. destruct (Nat.eq_dec h (target e)) as [->|Hne].
  - rewrite dispatch_absent by assumption. split; [now split | apply quiet_refl].
  - destruct (dispatch_frame w e) as (Ht & _ & _ & Hm & evs & Hx & Hev).
    cbv zeta in *. split.
    + unfold untracked. rewrite Ht, Hm by assumption. now split.
    + exists evs. split; [assumption|].
      eapply Forall_impl; [|exact (Hev h Hne)]. now intros ev [Hc _].
Qed.

Lemma untracked_tick (h : Element) (es : list IntersectionObserverEntry) (w : World) :
  untracked h w ->
  untracked h (onIntersection es w) /\ quiet h w (onIntersection es w).
Proof.
  revert w. induction es as [|e es IH]; intros w Hu.
  - split; [assumption | apply quiet_refl].
  - rewrite onIntersection_cons.
    destruct (untracked_dispatch h w e Hu) as [Hu1 Hq1].
    destruct (IH _ Hu1) as [Hu2 Hq2].
    split; [assumption | eapply quiet_trans; eassumption].
Qed.

Section Silence.

Variable host : Host.

Lemma untracked_rootRef (h : Element) (rootMargin : option string)
      (threshold : Threshold) (n : option HTMLElement) (w : World) :
  untracked h w ->
  untracked h (world_of (rootRef host rootMargin threshold n w)) /\
  quiet h w (world_of (rootRef host rootMargin threshold n w)).
Proof.
  intros [Hget Htemp]. destruct n as [root|].
  - destruct (positive_rootMargin host rootMargin
              && no_auto_overflow (computedStyle root)) eqn:Hcheck.
    + rewrite rootRef_throw by assumption. split; [now split | apply quiet_refl].
    + destruct (observer_error host rootMargin threshold) as [message|] eqn:Hctor.
      { rewrite (rootRef_rejected host rootMargin threshold root w message Hcheck Hctor).
        split; [now split | apply quiet_refl]. }
      destruct (rootRef_attach host rootMargin threshold root w Hcheck Hctor)
        as (w' & -> & Hm & Ht & _ & _ & Hx). simpl. split.
      * unfold untracked. rewrite Hm, Ht. split; [|constructor].
        now rewrite flushed_get_other.
      * eexists. split; [exact Hx|]. constructor; [reflexivity|].
        apply Forall_flat_map. apply Forall_forall. intros t _. repeat constructor.
  - simpl. unfold disconnect. destruct (observerRef w).
    + split; [now split|]. exists [EvDisconnect]. split; [reflexivity | repeat constructor].
    + split; [now split | apply quiet_refl].
Qed.

Lemma untracked_step (h : Element) (w : World) (op : Op) :
  untracked h w -> registers h op = false ->
  untracked h (world_of (step host w op)) /\
  quiet h w (world_of (step host w op)).
Proof.
  intros Hu Hop. destruct op as [n cb stop|rootMargin threshold n|es| |hk]; simpl.
  - apply untracked_register; [assumption|].
    intros ->. simpl in Hop. now rewrite Nat.eqb_refl in Hop.
  - now apply untracked_rootRef.
  - now apply untracked_tick.
  - destruct Hu as [Hget _]. split.
    + split; [assumption | constructor].
    + exists []. split; [|constructor]. unfold extends. simpl. now rewrite app_nil_r.
  - unfold useIntersectionObserver.
    destruct (isInitiallyVisible hk); simpl; [split; [assumption | apply quiet_refl]|].
    destruct (truthy (initiallyVisibleElements w)); simpl.
    + split; [exact Hu|]. exists []. split; [|constructor].
      unfold extends. simpl. now rewrite app_nil_r.
    + split; [assumption | apply quiet_refl].
Qed.

(** No later operation reaches the callback of an untracked element, short
    of registering the element again. *)
Lemma untracked_run (h : Element) (ops : list Op) (w : World) :
  untracked h w -> forallb (fun op => negb (registers h op)) ops = true ->
  untracked h (run host ops w) /\
  quiet h w (run host ops w).
Proof.
  revert w. induction ops as [|op ops IH]; intros w Hu Hops.
  - split; [assumption | apply quiet_refl].
  - simpl in Hops. apply andb_true_iff in Hops as [Hop Hops].
    apply negb_true_iff in Hop.
    destruct (untracked_step h w op Hu Hop) as [Hu1 Hq1].
    destruct (IH _ Hu1 Hops) as [Hu2 Hq2].
    split; [exact Hu2 | eapply quiet_trans; eassumption].
Qed.

End Silence.

(** ** One-shot retirement *)

Lemma calls_with_calls (h : Element) (b : bool) (ev : Event) :
  calls h ev = false -> calls_with h b ev = false.
Proof. destruct ev; simpl; trivial. now intros ->. Qed.

Lemma filter_none {A : Type} (f : A -> bool) (l : list A) :
  Forall (fun x => f x = false) l -> filter f l = [].
Proof.
  induction 1 as [|x l Hx _ IH]; simpl; [reflexivity|]. now rewrite Hx.
Qed.

(** A tick that carries [(h, true)] for a one-shot element [h]: up to the
    first such pair [h] is at most told [false]; at that pair its callback
    is told [true] and [h] is retired; from there on [h] is not tracked. *)
Lemma tick_retires (h : Element) (cb : VisibilityCallback)
      (es : list IntersectionObserverEntry) (w : World) :
  JsMap.ok (observedNodes w) ->
  JsMap.get h (observedNodes w) = Some (mkOptions cb true) ->
  Forall (fun t => node t <> h) (tempNodes w) ->
  In (mkEntry h true) es ->
  exists before after,
    extends w (onIntersection es w)
      (before ++ EvCall h cb true :: retirement (is_live w) h ++ after) /\
    Forall (fun ev => calls_with h true ev = false /\ removes h ev = false) before /\
    Forall (fun ev => calls h ev = false) after /\
    untracked h (onIntersection es w).
Proof.
  revert w. induction es as [|e es IH]; intros w Hok Hget Htemp Hin; [destruct Hin|].
  rewrite onIntersection_cons.
  destruct (Nat.eq_dec (target e) h) as [Heq|Hne].
  - destruct e as [t b]. simpl in Heq. subst t. destruct b.
    + (* the retiring pair *)
      destruct (dispatch_retire w (mkEntry h true) _ Hget eq_refl) as (Hm & Ht & Hl & Hx).
      cbv zeta in *. simpl in *.
      set (w1 := dispatch_entry w (mkEntry h true)) in *.
      assert (untracked h w1) as Hu.
      { split; [|now rewrite Ht]. rewrite Hm. now apply JsMapFacts.get_delete_same. }
      destruct (untracked_tick h es w1 Hu) as [Hu' (after & Hx' & Hq)].
      exists [], after. simpl.
      split; [|split; [constructor | split; assumption]].
      change (EvCall h cb true :: retirement (is_live w) h ++ after)
        with ((EvCall h cb true :: retirement (is_live w) h) ++ after).
      eapply extends_trans; eassumption.
    + (* told [false]: nothing but the call *)
      destruct (dispatch_keep w (mkEntry h false) _ Hget eq_refl) as (Hm & Ht & Hl & Hx).
      cbv zeta in *. simpl in *.
      set (w1 := dispatch_entry w (mkEntry h false)) in *.
      destruct Hin as [Hin|Hin]; [discriminate|].
      destruct (IH w1) as (before & after & Hx' & Hb & Ha & Hu); try assumption.
      * now rewrite Hm.
      * now rewrite Hm.
      * now rewrite Ht.
      * exists (EvCall h cb false :: before), after. rewrite Hl in Hx'.
        split; [|split; [|split; assumption]].
        -- change ((EvCall h cb false :: before) ++
                   EvCall h cb true :: retirement (is_live w) h ++ after)
             with ([EvCall h cb false] ++
                   (before ++ EvCall h cb true :: retirement (is_live w) h ++ after)).
           eapply extends_trans; eassumption.
        -- constructor; [|assumption]. simpl. rewrite Nat.eqb_refl. now split.
  - (* a pair for another element *)
    destruct (dispatch_frame w e) as (Ht & Hl & Hok' & Hm & evs & Hx & Hev).
    cbv zeta in *.
    destruct Hin as [Hin|Hin]; [subst e; simpl in Hne; congruence|].
    destruct (IH (dispatch_entry w e)) as (before & after & Hx' & Hb & Ha & Hu);
      try assumption.
    + now apply Hok'.
    + rewrite Hm by congruence. assumption.
    + now rewrite Ht.
    + exists (evs ++ before), after. rewrite Hl in Hx'.
      split; [|split; [|split; assumption]].
      * rewrite <- app_assoc. eapply extends_trans; eassumption.
      * apply Forall_app. split; [|assumption].
        eapply Forall_impl; [|apply (Hev h); congruence].
        intros ev [Hc Hr]. split; [now apply calls_with_calls | assumption].
Qed.

(** C1.  A target registered with [stopObservingOnceVisible = true] and a
    tick that delivers [(h, true)] for it: the tick invokes the callback
    stored for [h] with [true] exactly once; before that invocation the tick
    neither unobserves nor deletes [h], and right after it [h] is unobserved
    (when a sensor exists) and deleted; after the tick [h] is not in the
    registry; and whatever follows, short of registering [h] again, no
    callback is invoked for [h], whichever later tick names it. *)
Theorem one_shot_retirement (host : Host)
        (w : World) (es : list IntersectionObserverEntry)
        (h : Element) (cb : VisibilityCallback) :
  invariant w ->
  JsMap.get h (observedNodes w) = Some (mkOptions cb true) ->
  In (mkEntry h true) es ->
  let w' := onIntersection es w in
  (exists before after,
     extends w w' (before ++ EvCall h cb true :: retirement (is_live w) h ++ after) /\
     Forall (fun ev => calls_with h true ev = false /\ removes h ev = false) before /\
     Forall (fun ev => calls h ev = false) after) /\
  (exists evs,
     extends w w' evs /\ List.length (filter (calls_with h true) evs) = 1) /\
  JsMap.get h (observedNodes w') = None /\
  forall ops,
    forallb (fun op => negb (registers h op)) ops = true ->
    quiet h w' (run host ops w') /\
    JsMap.get h (observedNodes (run host ops w')) = None.
Proof.
  intros Hinv Hget Hin w'.
  assert (Forall (fun t => node t <> h) (tempNodes w)) as Htemp.
  { eapply Forall_impl; [|exact (inv_pending_fresh w Hinv)].
    intros t Ht Heq. simpl in Ht. rewrite Heq in Ht. congruence. }
  destruct (tick_retires h cb es w (inv_registry w Hinv) Hget Htemp Hin)
    as (before & after & Hx & Hb & Ha & Hu).
  fold w' in Hx, Hu. repeat split.
  - now exists before, after.
  - eexists. split; [exact Hx|].
    rewrite filter_app. simpl. rewrite Nat.eqb_refl. simpl.
    rewrite filter_app, length_app. simpl.
    rewrite (filter_none (calls_with h true) before).
    + rewrite (filter_none (calls_with h true) after).
      * destruct (is_live w); simpl; now rewrite ?Nat.eqb_refl.
      * eapply Forall_impl; [|exact Ha]. intros ev. apply calls_with_calls.
    + eapply Forall_impl; [|exact Hb]. now intros ev [Hc _].
  - apply Hu.
  - now apply untracked_run.
  - now apply (untracked_run host h ops w' Hu).
Qed.

Lemma one_shot_retirement_witness :
  let w := run Sample.host
               [Sample.attach;
                OpRegister (Some 1) (Sample.setIsVisible_of 1) true;
                OpRegister (Some 2) (Sample.setIsVisible_of 2) true]
               (initial None) in
  let es := [mkEntry 2 false; mkEntry 1 true; mkEntry 1 true] in
  invariant w /\
  JsMap.get 1 (observedNodes w) = Some (mkOptions (Sample.setIsVisible_of 1) true) /\
  In (mkEntry 1 true) es /\
  JsMap.get 1 (observedNodes (onIntersection es w)) = None.
Proof.
  intros w es.
  assert (invariant w) as Hinv by evaluate_invariant.
  assert (JsMap.get 1 (observedNodes w)
          = Some (mkOptions (Sample.setIsVisible_of 1) true)) as Hget by reflexivity.
  assert (In (mkEntry 1 true) es) as Hin by (simpl; tauto).
  split; [exact Hinv | split; [exact Hget | split; [exact Hin|]]].
  exact (proj1 (proj2 (proj2
           (one_shot_retirement Sample.host w es 1 _ Hinv Hget Hin)))).
Defined.

(** The same tick, evaluated: element 2 is told [false] and stays, element 1
    is told [true] once and retired, the second pair for element 1 is
    dropped. *)
Example example_retiring_tick :
  let w := run Sample.host
               [Sample.attach;
                OpRegister (Some 1) (Sample.setIsVisible_of 1) true;
                OpRegister (Some 2) (Sample.setIsVisible_of 2) true]
               (initial None) in
  let w' := onIntersection [mkEntry 2 false; mkEntry 1 true; mkEntry 1 true] w in
  extends w w' [EvCall 2 (Sample.setIsVisible_of 2) false;
                EvCall 1 (Sample.setIsVisible_of 1) true;
                EvUnobserve 1; EvDelete 1] /\
  JsMap.keys (observedNodes w') = [2].
Proof. split; reflexivity. Qed.

(** ** Stale pairs *)

(** C6.  A pair of a tick whose element is not in the registry when the
    pair is dispatched is skipped: dispatching it leaves the world as it
    is (no callback is invoked, the registry, the pending queue, the sensor
    and the trace are unchanged), the tick ends normally, and it ends in the
    world it would have ended in without that pair. *)
Theorem stale_pair_skipped (host : Host) (w : World)
        (before after : list IntersectionObserverEntry)
        (e : IntersectionObserverEntry) :
  JsMap.get (target e) (observedNodes (onIntersection before w)) = None ->
  dispatch_entry (onIntersection before w) e = onIntersection before w /\
  step host w (OpTick (before ++ e :: after))
  = Done (onIntersection (before ++ after) w).
Proof.
  intros Hget. split; [now apply dispatch_absent|].
  simpl. f_equal. rewrite !onIntersection_app, onIntersection_cons.
  now rewrite dispatch_absent.
Qed.

Lemma stale_pair_skipped_witness :
  let w := run Sample.host
               [Sample.attach; OpRegister (Some 1) (Sample.setIsVisible_of 1) true]
               (initial None) in
  JsMap.get 1 (observedNodes (onIntersection [mkEntry 1 true] w)) = None /\
  step Sample.host w
       (OpTick ([mkEntry 1 true] ++ mkEntry 1 true :: [mkEntry 9 false]))
  = Done (onIntersection ([mkEntry 1 true] ++ [mkEntry 9 false]) w).
Proof.
  intros w. split; [reflexivity|].
  exact (proj2 (stale_pair_skipped Sample.host w
                  [mkEntry 1 true] [mkEntry 9 false] (mkEntry 1 true) eq_refl)).
Defined.

(** ** Unregistration by callback *)

(** C10.  [registerObserver] with an absent element and a callback that is
    the callback of no registry entry ends normally and changes nothing:
    the registry, the pending queue, the sensor and the trace are as
    before. *)
Theorem unregister_unknown_callback (host : Host)
        (w : World) (cb : VisibilityCallback) (stop : bool) :
  Forall (fun e => same_function (visibilityCallback (snd e)) cb = false)
         (observedNodes w) ->
  step host w (OpRegister None cb stop) = Done w.
Proof.
  intros Hnone%first_with_callback_None. simpl.
  now rewrite unregister_loop_first, Hnone.
Qed.

Lemma unregister_unknown_callback_witness :
  let w := run Sample.host
               [OpRegister (Some 3) (Sample.setIsVisible_of 3) true;
                Sample.attach;
                OpRegister (Some 1) (Sample.setIsVisible_of 1) true;
                OpRootRef Sample.rootMargin Sample.threshold None;
                OpRegister (Some 5) (Sample.setIsVisible_of 5) true]
               (initial None) in
  Forall (fun e => same_function (visibilityCallback (snd e))
                                 (Sample.setIsVisible_of 5) = false)
         (observedNodes w) /\
  step Sample.host w (OpRegister None (Sample.setIsVisible_of 5) true)
  = Done w.
Proof.
  intros w.
  assert (Forall (fun e => same_function (visibilityCallback (snd e))
                                         (Sample.setIsVisible_of 5) = false)
                 (observedNodes w)) as H by (repeat constructor).
  split; [exact H|].
  exact (unregister_unknown_callback Sample.host w
           (Sample.setIsVisible_of 5) true H).
Defined.

(** C7.  When some registry entry carries the given callback (the same
    function object), [registerObserver] with an absent element removes the
    first such entry in iteration order and nothing else: the registry is
    the old one without that entry, later entries with the same callback
    included; the removed element is unobserved when a sensor exists; every
    entry whose callback is another function object, however alike, is
    still there; the pending queue is untouched. *)
Theorem unregister_first_match (w : World) (cb : VisibilityCallback) (stop : bool) :
  JsMap.ok (observedNodes w) ->
  (exists e, In e (observedNodes w) /\
             same_function (visibilityCallback (snd e)) cb = true) ->
  let w' := registerObserver None cb stop w in
  exists l1 k o l2,
    observedNodes w = l1 ++ (k, o) :: l2 /\
    same_function (visibilityCallback o) cb = true /\
    Forall (fun e => same_function (visibilityCallback (snd e)) cb = false) l1 /\
    observedNodes w' = l1 ++ l2 /\
    JsMap.get k (observedNodes w') = None /\
    extends w w' (retirement (is_live w) k) /\
    tempNodes w' = tempNodes w /\
    forall k' o',
      In (k', o') (observedNodes w) ->
      fn_ref (visibilityCallback o') <> fn_ref cb ->
      In (k', o') (observedNodes w').
Proof.
  intros Hok (e & Hin & He) w'.
  destruct (first_with_callback cb (observedNodes w)) as [k|] eqn:F.
  2:{ apply first_with_callback_None in F. rewrite Forall_forall in F.
      specialize (F e Hin). congruence. }
  destruct (proj1 (first_with_callback_Some cb (observedNodes w) k) F)
    as (l1 & o & l2 & Hm & Ho & Hl1).
  destruct (retire_effect k w) as (Hm' & Ht & _ & _ & Hx). cbv zeta in *.
  assert (w' = registry_delete k (sensor_unobserve k w)) as ->.
  { unfold w'. simpl. now rewrite unregister_loop_first, F. }
  assert (observedNodes (registry_delete k (sensor_unobserve k w)) = l1 ++ l2) as Hafter.
  { rewrite Hm', Hm. apply JsMapFacts.delete_middle. now rewrite <- Hm. }
  exists l1, k, o, l2. repeat split; try assumption.
  - rewrite Hm'. now apply JsMapFacts.get_delete_same.
  - intros k' o' Hin' Hne. rewrite Hafter. rewrite Hm in Hin'.
    apply in_app_iff. apply in_app_iff in Hin' as [H|[H|H]]; [now left | | now right].
    injection H as <- <-. unfold same_function in Ho.
    apply Nat.eqb_eq in Ho. congruence.
Qed.

Lemma unregister_first_match_witness :
  let w := run Sample.host
               [Sample.attach;
                OpRegister (Some 1) (Sample.setIsVisible_of 1) false;
                OpRegister (Some 2) (Sample.setIsVisible_of 2) false;
                OpRegister (Some 3) (Sample.setIsVisible_of 2) false]
               (initial None) in
  JsMap.ok (observedNodes w) /\
  (exists e, In e (observedNodes w) /\
             same_function (visibilityCallback (snd e)) (Sample.setIsVisible_of 2) = true) /\
  exists l1 k o l2,
    observedNodes w = l1 ++ (k, o) :: l2 /\
    observedNodes (registerObserver None (Sample.setIsVisible_of 2) false w) = l1 ++ l2.
Proof.
  intros w.
  assert (JsMap.ok (observedNodes w)) as Hok by (unfold JsMap.ok; evaluate_NoDup).
  assert (exists e, In e (observedNodes w) /\
            same_function (visibilityCallback (snd e)) (Sample.setIsVisible_of 2) = true)
    as Hex by (exists (2, mkOptions (Sample.setIsVisible_of 2) false); split;
               [simpl; tauto | reflexivity]).
  split; [exact Hok | split; [exact Hex|]].
  destruct (unregister_first_match w (Sample.setIsVisible_of 2) false Hok Hex)
    as (l1 & k & o & l2 & Hm & _ & _ & Hm' & _).
  exists l1, k, o, l2. split; [exact Hm | exact Hm'].
Defined.

(** Elements 2 and 3 carry the same setter, element 1 one that looks the
    same: only element 2 goes. *)
Example example_shared_setter :
  let w := run Sample.host
               [Sample.attach;
                OpRegister (Some 1) (Sample.setIsVisible_of 1) false;
                OpRegister (Some 2) (Sample.setIsVisible_of 2) false;
                OpRegister (Some 3) (Sample.setIsVisible_of 2) false]
               (initial None) in
  let w' := registerObserver None (Sample.setIsVisible_of 2) false w in
  JsMap.keys (observedNodes w') = [1; 3] /\
  extends w w' [EvUnobserve 2; EvDelete 2].
Proof. split; reflexivity. Qed.

(** ** The pending queue *)

(** While no sensor exists, registrations of elements that are not in the
    registry are appended to the queue, one entry per call. *)
Lemma register_all_pending (rs : list TempNode) (w : World) :
  observerRef w = None ->
  observerRef (register_all rs w) = None /\
  observedNodes (register_all rs w) = observedNodes w /\
  tempNodes (register_all rs w)
  = tempNodes w ++ filter (fun r => negb (JsMap.has (node r) (observedNodes w))) rs.
Proof.
  revert w. induction rs as [|r rs IH]; intros w Ho.
  - simpl. now rewrite app_nil_r.
  - change (register_all (r :: rs) w)
      with (register_all rs (registerObserver (Some (node r)) (temp_visibilityCallback r)
                                              (temp_stopObservingOnceVisible r) w)).
    simpl filter. unfold registerObserver. rewrite Ho.
    destruct (JsMap.has (node r) (observedNodes w)) eqn:Hhas; simpl negb; cbv iota.
    + now apply IH.
    + destruct (IH (temp_push (mkTemp (node r) (temp_visibilityCallback r)
                                      (temp_stopObservingOnceVisible r)) w) Ho)
        as (H1 & H2 & H3).
      rewrite H1, H2, H3. simpl. destruct r; simpl. now rewrite <- app_assoc.
Qed.

Lemma flushed_fresh (ts : list TempNode) (m : JsMap.t) :
  Forall (fun t => JsMap.get (node t) m = None) ts ->
  NoDup (map node ts) ->
  flushed ts m = m ++ map (fun t => (node t, temp_options t)) ts.
Proof.
  revert m. induction ts as [|t ts IH]; intros m Hfresh Hnd; simpl.
  - now rewrite app_nil_r.
  - inversion_clear Hfresh as [|? ? Ht Hts]. inversion_clear Hnd as [|? ? Hnotin Hnd'].
    rewrite JsMapFacts.keys_set_new by assumption.
    rewrite IH; [now rewrite <- app_assoc | | assumption].
    rewrite Forall_forall in *. intros t' Hin.
    apply JsMapFacts.get_snoc; [now apply Hts|].
    intros Heq. apply Hnotin. rewrite <- Heq. now apply in_map.
Qed.

Lemma flush_targets (ts : list TempNode) (w : World) (io : IntersectionObserver) :
  observerRef w = Some io ->
  exists io',
    observerRef (fold_left flush_one ts w) = Some io' /\
    (io_root io' = io_root io /\ io_rootMargin io' = io_rootMargin io) /\
    forall n, In n (io_targets io') <-> In n (io_targets io) \/ In n (map node ts).
Proof.
  revert w io. induction ts as [|t ts IH]; intros w io Ho; simpl.
  - exists io. repeat split; tauto.
  - destruct (IH (flush_one w t) (observe (node t) io)) as (io' & Ho' & [Hroot Hmargin] & Hin).
    { unfold flush_one, registry_set, sensor_observe. now rewrite Ho. }
    exists io'. split; [assumption|]. split.
    + rewrite Hroot, Hmargin. unfold observe. now destruct (existsb _ _).
    + intros n. rewrite Hin, In_observe. intuition congruence.
Qed.

(** C4.  Registrations made while no sensor exists wait in the pending
    queue in the order they were made.  Attaching a root that passes the
    overflow check, with options the constructor accepts, builds the sensor
    and replays the queue once, front to back: each queued entry is observed
    and set in the registry, in queue order, and the queue is empty
    afterwards, so that a later attachment has nothing to replay.  An
    attachment that throws, at the overflow check or in the constructor,
    leaves the queue and everything else as it was.  In every world the
    provider can reach, the queue is empty whenever a sensor exists. *)
Theorem pending_queue_flush (host : Host) (w0 : World)
        (rs : list TempNode) (rootMargin : option string) (threshold : Threshold)
        (root : HTMLElement) :
  observerRef w0 = None ->
  positive_rootMargin host rootMargin
    && no_auto_overflow (computedStyle root) = false ->
  observer_error host rootMargin threshold = None ->
  let w := register_all rs w0 in
  (tempNodes w
   = tempNodes w0 ++ filter (fun r => negb (JsMap.has (node r) (observedNodes w0))) rs /\
   observedNodes w = observedNodes w0 /\
   is_live w = false) /\
  (exists w',
     rootRef host rootMargin threshold (Some root) w = Done w' /\
     (exists io, observerRef w' = Some io /\ io_root io = root_element root /\
                 forall n, In n (io_targets io) <-> In n (map node (tempNodes w))) /\
     extends w w'
       (EvNewObserver (root_element root)
          :: flat_map (fun t => [EvObserve (node t); EvSet (node t)]) (tempNodes w)) /\
     observedNodes w' = flushed (tempNodes w) (observedNodes w) /\
     (observedNodes w0 = [] -> tempNodes w0 = [] -> NoDup (map node rs) ->
      observedNodes w' = map (fun t => (node t, temp_options t)) rs) /\
     tempNodes w' = [] /\
     forall rootMargin' threshold' root',
       positive_rootMargin host rootMargin'
         && no_auto_overflow (computedStyle root') = false ->
       observer_error host rootMargin' threshold' = None ->
       exists w'',
         rootRef host rootMargin' threshold' (Some root') w' = Done w'' /\
         extends w' w'' [EvNewObserver (root_element root')]) /\
  (forall rootMargin' threshold' root' message v,
     rootRef host rootMargin' threshold' (Some root') w = Thrown message v -> v = w) /\
  (forall v, reachable host v -> is_live v = true -> tempNodes v = []).
Proof.
  intros Ho Hcheck Haccept w.
  destruct (register_all_pending rs w0 Ho) as (Ho1 & Hm1 & Ht1). fold w in Ho1, Hm1, Ht1.
  split; [|split; [|split]].
  - repeat split; try assumption. unfold is_live. now rewrite Ho1.
  - destruct (rootRef_attach host rootMargin threshold root w Hcheck Haccept)
      as (w' & Hrun & Hm & Ht & Hl & _ & Hx).
    exists w'. split; [exact Hrun|]. split; [|split; [exact Hx|split; [exact Hm|split; [|split; [exact Ht|]]]]].
    + unfold rootRef in Hrun. rewrite Hcheck, Haccept in Hrun. injection Hrun as <-.
      destruct (flush_targets (tempNodes w) (new_observer root rootMargin threshold w)
                              (mkObserver (root_element root) rootMargin threshold [])
                              eq_refl)
        as (io & Hio & [Hroot _] & Hin).
      exists io. simpl. split; [exact Hio|]. split; [exact Hroot|].
      intros n. rewrite Hin. simpl. tauto.
    + intros Hm0 Ht0 Hnd. rewrite Hm, Hm1, Ht1, Hm0, Ht0.
      assert (filter (fun r => negb (JsMap.has (node r) [])) rs = rs) as ->.
      { clear. induction rs as [|r rs IH]; simpl; [reflexivity | f_equal; exact IH]. }
      rewrite app_nil_l, flushed_fresh; [reflexivity | | assumption].
      apply Forall_forall. now intros t _.
    + intros rootMargin' threshold' root' Hcheck' Haccept'.
      destruct (rootRef_attach host rootMargin' threshold' root' w' Hcheck' Haccept')
        as (w'' & Hrun' & _ & _ & _ & _ & Hx').
      exists w''. split; [exact Hrun'|]. now rewrite Ht in Hx'.
  - intros rootMargin' threshold' root' message v. unfold rootRef.
    destruct (positive_rootMargin host rootMargin'
              && no_auto_overflow (computedStyle root')); [now intros [= _ <-]|].
    destruct (observer_error host rootMargin' threshold'); [now intros [= _ <-]|].
    discriminate.
  - intros v Hv. apply inv_pending_empty. now apply (reachable_invariant host).
Qed.

Lemma pending_queue_flush_witness :
  let rs := [mkTemp 1 (Sample.setIsVisible_of 1) true;
             mkTemp 2 (Sample.setIsVisible_of 2) true;
             mkTemp 3 (Sample.setIsVisible_of 3) true] in
  observerRef (initial None) = None /\
  positive_rootMargin Sample.host Sample.rootMargin
    && no_auto_overflow (computedStyle Sample.container) = false /\
  observer_error Sample.host Sample.rootMargin Sample.threshold = None /\
  tempNodes (register_all rs (initial None)) = rs /\
  exists w',
    rootRef Sample.host Sample.rootMargin Sample.threshold (Some Sample.container)
            (register_all rs (initial None)) = Done w' /\
    tempNodes w' = [].
Proof.
  intros rs.
  destruct (pending_queue_flush Sample.host (initial None) rs
              Sample.rootMargin Sample.threshold Sample.container
              eq_refl eq_refl eq_refl)
    as ((Hq & _) & (w' & Hrun & _ & _ & _ & _ & Hempty & _) & _).
  split; [reflexivity | split; [reflexivity | split; [reflexivity | split; [exact Hq|]]]].
  exists w'. split; [exact Hrun | exact Hempty].
Defined.

(** Three elements registered before the root is there, then the root, then
    one tick that reports the three as intersecting. *)
Example example_flush_then_tick :
  let w := run Sample.host
               [OpRegister (Some 1) (Sample.setIsVisible_of 1) true;
                OpRegister (Some 2) (Sample.setIsVisible_of 2) true;
                OpRegister (Some 3) (Sample.setIsVisible_of 3) true;
                Sample.attach;
                OpTick [mkEntry 3 true; mkEntry 1 true; mkEntry 2 true]]
               (initial None) in
  trace w = [EvPush 1; EvPush 2; EvPush 3;
             EvNewObserver 1000;
             EvObserve 1; EvSet 1; EvObserve 2; EvSet 2; EvObserve 3; EvSet 3;
             EvCall 3 (Sample.setIsVisible_of 3) true; EvUnobserve 3; EvDelete 3;
             EvCall 1 (Sample.setIsVisible_of 1) true; EvUnobserve 1; EvDelete 1;
             EvCall 2 (Sample.setIsVisible_of 2) true; EvUnobserve 2; EvDelete 2] /\
  observedNodes w = [] /\ tempNodes w = [].
Proof. repeat split. Qed.

(** ** The overflow check *)

Lemma rootRef_sensor (host : Host)
      (rootMargin : option string) (threshold : Threshold) (root : HTMLElement)
      (w w' : World) :
  rootRef host rootMargin threshold (Some root) w = Done w' ->
  exists io,
    observerRef w' = Some io /\
    io_root io = root_element root /\
    io_rootMargin io = rootMargin /\
    forall n, In n (io_targets io) <-> In n (map node (tempNodes w)).
Proof.
  unfold rootRef.
  destruct (positive_rootMargin host rootMargin
            && no_auto_overflow (computedStyle root)); [discriminate|].
  destruct (observer_error host rootMargin threshold); [discriminate|].
  intros [= <-].
  destruct (flush_targets (tempNodes w) (new_observer root rootMargin threshold w)
                          (mkObserver (root_element root) rootMargin threshold []) eq_refl)
    as (io & Hio & [Hroot Hmargin] & Hin).
  exists io. simpl. split; [exact Hio|]. split; [exact Hroot|]. split; [exact Hmargin|].
  intros n. rewrite Hin. simpl. tauto.
Qed.

Lemma flush_threshold (ts : list TempNode) (w : World) (io io' : IntersectionObserver) :
  observerRef w = Some io ->
  observerRef (fold_left flush_one ts w) = Some io' ->
  io_threshold io' = io_threshold io.
Proof.
  revert w io. induction ts as [|t ts IH]; intros w io Ho Ho'; simpl in Ho'.
  - congruence.
  - rewrite (IH (flush_one w t) (observe (node t) io)); trivial.
    + unfold observe. now destruct (existsb _ _).
    + unfold flush_one, registry_set, sensor_observe. now rewrite Ho.
Qed.

Lemma rootRef_threshold (host : Host)
      (rootMargin : option string) (threshold : Threshold) (root : HTMLElement)
      (w w' : World) (io : IntersectionObserver) :
  rootRef host rootMargin threshold (Some root) w = Done w' ->
  observerRef w' = Some io ->
  io_threshold io = threshold.
Proof.
  unfold rootRef.
  destruct (positive_rootMargin host rootMargin
            && no_auto_overflow (computedStyle root)); [discriminate|].
  destruct (observer_error host rootMargin threshold); [discriminate|].
  intros [= <-]. simpl. intros Hio.
  now rewrite (flush_threshold (tempNodes w) (new_observer root rootMargin threshold w)
                 (mkObserver (root_element root) rootMargin threshold []) io eq_refl Hio).
Qed.

(** C9.  When the root is attached: if the configured root margin has a
    positive offset and none of the root's overflow properties computes to
    ["auto"], [rootRef] throws the configuration error to its caller and
    leaves the world as it was, so no sensor is built; if the root has an
    ["auto"] overflow, or the margin has no positive offset, the check raises
    nothing: with options the constructor accepts, [rootRef] returns normally
    with a sensor on that root, bound to the margin and the threshold; with
    options the constructor rejects, the only exception is the
    constructor's own, and again the world is as it was. *)
Theorem overflow_check (host : Host)
        (rootMargin : option string) (threshold : Threshold) (root : HTMLElement)
        (w : World) :
  (has_positive_offset host rootMargin /\ ~ has_auto_overflow root ->
   rootRef host rootMargin threshold (Some root) w = Thrown overflow_error w) /\
  (has_auto_overflow root \/ ~ has_positive_offset host rootMargin ->
   observer_error host rootMargin threshold = None ->
   exists w' io,
     rootRef host rootMargin threshold (Some root) w = Done w' /\
     observerRef w' = Some io /\
     io_root io = root_element root /\
     io_rootMargin io = rootMargin /\
     io_threshold io = threshold) /\
  (has_auto_overflow root \/ ~ has_positive_offset host rootMargin ->
   forall message,
     observer_error host rootMargin threshold = Some message ->
     rootRef host rootMargin threshold (Some root) w = Thrown message w).
Proof.
  assert (has_auto_overflow root \/ ~ has_positive_offset host rootMargin ->
          positive_rootMargin host rootMargin
          && no_auto_overflow (computedStyle root) = false) as Hpass.
  { intros H. apply andb_false_iff. destruct H as [Hauto|Hnone].
    - right. now apply no_auto_overflow_spec.
    - left. apply not_true_iff_false. intros Hp. apply Hnone.
      now apply positive_rootMargin_offset. }
  split; [|split].
  - intros [Hpos Hplain]. apply rootRef_throw.
    apply andb_true_iff. split; [now apply positive_rootMargin_offset|].
    apply not_false_iff_true. intros H. now apply no_auto_overflow_spec in H.
  - intros H Haccept.
    destruct (rootRef_attach host rootMargin threshold root w (Hpass H) Haccept)
      as (w' & Hrun & _).
    destruct (rootRef_sensor host rootMargin threshold root w w' Hrun)
      as (io & Hio & Hroot & Hmargin & _).
    exists w', io. repeat split; trivial.
    exact (rootRef_threshold host rootMargin threshold root w w' io Hrun Hio).
  - intros H message Hreject. now apply rootRef_rejected; [apply Hpass|].
Qed.

Lemma overflow_check_witness :
  (has_positive_offset Sample.host Sample.rootMargin /\
   ~ has_auto_overflow Sample.plain_root) /\
  rootRef Sample.host Sample.rootMargin Sample.threshold (Some Sample.plain_root)
          (initial None)
  = Thrown overflow_error (initial None) /\
  has_auto_overflow Sample.container /\
  observer_error Sample.host Sample.rootMargin Sample.threshold = None /\
  (exists w' io,
     rootRef Sample.host Sample.rootMargin Sample.threshold (Some Sample.container)
             (initial None) = Done w' /\
     observerRef w' = Some io /\
     io_root io = root_element Sample.container /\
     io_rootMargin io = Sample.rootMargin /\
     io_threshold io = Sample.threshold) /\
  (exists message,
     observer_error Sample.host (Some "10em") Sample.threshold = Some message /\
     rootRef Sample.host (Some "10em") Sample.threshold (Some Sample.container)
             (initial None) = Thrown message (initial None)).
Proof.
  assert (has_positive_offset Sample.host Sample.rootMargin) as Hpos.
  { exists "1000px 0px", "1000px". repeat split; [discriminate | simpl; tauto]. }
  assert (~ has_auto_overflow Sample.plain_root) as Hplain.
  { intros [H|[H|H]]; discriminate H. }
  assert (has_auto_overflow Sample.container) as Hauto by (left; reflexivity).
  split; [now split|]. split; [|split; [exact Hauto|split; [reflexivity|split]]].
  - exact (proj1 (overflow_check Sample.host Sample.rootMargin Sample.threshold
                    Sample.plain_root (initial None)) (conj Hpos Hplain)).
  - exact (proj1 (proj2 (overflow_check Sample.host Sample.rootMargin Sample.threshold
                           Sample.container (initial None)))
                 (or_introl Hauto) eq_refl).
  - eexists. split; [reflexivity|].
    exact (proj2 (proj2 (overflow_check Sample.host (Some "10em") Sample.threshold
                           Sample.container (initial None)))
                 (or_introl Hauto) _ eq_refl).
Defined.

(** ** The bootstrap counter *)

Lemma render_again (h : HookState) (w : World) :
  isInitiallyVisible h <> None ->
  claim (fst (useIntersectionObserver h w)) = false /\
  snd (useIntersectionObserver h w) = w.
Proof.
  unfold useIntersectionObserver. destruct (isInitiallyVisible h); [|congruence].
  now split.
Qed.

(** C8.  The first render of a consumer, with a counter that is not
    negative: the check answers [true] and takes one off the counter exactly
    when the counter is above zero, and answers [false] and leaves the world
    alone when the counter is zero; the state cell starts at that answer.
    From a counter of 2, the first two new consumers get [true] and the
    third gets [false].  A consumer whose answer is [false] passes every
    call of its ref callback on to [registerObserver], with
    [stopObservingOnceVisible] set or not. *)
Theorem bootstrap_claim (w : World) (setter : VisibilityCallback) :
  (0 <= initiallyVisibleElements w)%Z ->
  let h := fst (useIntersectionObserver (fresh_hook setter) w) in
  let w' := snd (useIntersectionObserver (fresh_hook setter) w) in
  ((claim h = true /\
    initiallyVisibleElements w' = (initiallyVisibleElements w - 1)%Z)
   <-> (0 < initiallyVisibleElements w)%Z) /\
  (initiallyVisibleElements w = 0%Z -> claim h = false /\ w' = w) /\
  (0 <= initiallyVisibleElements w')%Z /\
  isVisible h = Some (claim h) /\
  setIsVisible h = setter /\
  (initiallyVisibleElements w = 2%Z ->
   forall s1 s2 s3,
     map claim (fst (mount_all [s1; s2; s3] w)) = [true; true; false]) /\
  (claim h = false ->
   forall stop n v,
     observeRef stop h n v = registerObserver n setter stop v).
Proof.
  intros Hnonneg h w'. subst h w'. unfold useIntersectionObserver, truthy. simpl.
  destruct (Z.eqb_spec (initiallyVisibleElements w) 0) as [Hz|Hnz]; simpl.
  - rewrite Hz. repeat split; try lia; try discriminate.
  - repeat split; try lia; try discriminate.
    intros H2 s1 s2 s3. destruct w as [o m t c tr]. simpl in H2. subst c.
    reflexivity.
Qed.

Lemma bootstrap_claim_witness :
  (0 <= initiallyVisibleElements (initial (Some 2%Z)))%Z /\
  map claim (fst (mount_all [Sample.setIsVisible_of 1; Sample.setIsVisible_of 2;
                             Sample.setIsVisible_of 3] (initial (Some 2%Z))))
  = [true; true; false].
Proof.
  split; [simpl; lia|].
  refine (proj1 (proj2 (proj2 (proj2 (proj2 (proj2
            (bootstrap_claim (initial (Some 2%Z)) (Sample.setIsVisible_of 0) _))))))
            eq_refl _ _ _).
  simpl. lia.
Defined.

(** A consumer of [DeferredRenderWrapper] ([stopObservingOnceVisible] is
    [true]) that mounts after the allowance is used up is handed to the
    sensor. *)
Example exhausted_consumer_registers :
  let w := run Sample.host [Sample.attach] (initial (Some 2%Z)) in
  let '(hs, w1) := mount_all [Sample.setIsVisible_of 1; Sample.setIsVisible_of 2;
                              Sample.setIsVisible_of 3] w in
  let w2 := fold_left (fun v '(h, n) => observeRef true h (Some n) v)
                      (combine hs [11; 12; 13]) w1 in
  map claim hs = [true; true; false] /\
  initiallyVisibleElements w2 = 0%Z /\
  observedNodes w2 = [(13, mkOptions (Sample.setIsVisible_of 3) true)] /\
  extends w w2 [EvObserve 13; EvSet 13].
Proof. repeat split. Qed.

(** C3.  The check is not idempotent over renders.  With an allowance of 2,
    the first render of a consumer answers [true] and takes one off the
    counter; the second render of the same consumer finds the ref set, takes
    the [else] branch and overwrites the ref with [false].  The counter is
    not decremented a second time. *)
Theorem rerender_overwrites_claim :
  let first := useIntersectionObserver (fresh_hook (Sample.setIsVisible_of 1))
                                       (initial (Some 2%Z)) in
  let second := useIntersectionObserver (fst first) (snd first) in
  claim (fst first) = true /\
  claim (fst second) = false /\
  initiallyVisibleElements (snd first) = 1%Z /\
  initiallyVisibleElements (snd second) = 1%Z.
Proof. repeat split. Qed.

(** What the overwritten ref does to a one-shot consumer that was granted
    initial visibility: before the second render its ref callback keeps it
    away from the sensor, after the second render the same callback
    registers it. *)
Example rerender_then_observeRef :
  let w := run Sample.host [Sample.attach] (initial (Some 2%Z)) in
  let first := useIntersectionObserver (fresh_hook (Sample.setIsVisible_of 1)) w in
  let second := useIntersectionObserver (fst first) (snd first) in
  observeRef true (fst first) (Some 11) (snd first) = snd first /\
  JsMap.keys (observedNodes (observeRef true (fst second) (Some 11) (snd second)))
  = [11].
Proof. split; reflexivity. Qed.

(** ** Registering an element twice *)

(** An element of the registry is not registered again. *)
Lemma register_known (h : Element) (cb : VisibilityCallback) (stop : bool) (w : World) :
  JsMap.has h (observedNodes w) = true ->
  registerObserver (Some h) cb stop w = w.
Proof. intros H. simpl. now rewrite H. Qed.

(** With a sensor, the second of two registrations of a new element does
    nothing: one registry entry, with the first settings, one [observe]
    call, one target on the sensor. *)
Lemma register_twice_live (h : Element) (cb cb' : VisibilityCallback)
      (stop stop' : bool) (w : World) (io : IntersectionObserver) :
  invariant w ->
  observerRef w = Some io ->
  JsMap.get h (observedNodes w) = None ->
  let w1 := registerObserver (Some h) cb stop w in
  let w2 := registerObserver (Some h) cb' stop' w1 in
  w2 = w1 /\
  observedNodes w2 = observedNodes w ++ [(h, mkOptions cb stop)] /\
  count_occ Nat.eq_dec (JsMap.keys (observedNodes w2)) h = 1 /\
  extends w w2 [EvObserve h; EvSet h] /\
  tempNodes w2 = [] /\
  exists io2, observerRef w2 = Some io2 /\
              count_occ Nat.eq_dec (io_targets io2) h = 1.
Proof.
  intros Hinv Ho Hget w1 w2.
  assert (w1 = registry_set h (mkOptions cb stop) (sensor_observe h w)) as Hw1.
  { unfold w1. simpl. apply JsMapFacts.has_false in Hget. now rewrite Hget, Ho. }
  destruct (subscribe_effect h (mkOptions cb stop) w) as (Hm & Ht & Hl & _ & Hx).
  cbv zeta in *. rewrite <- Hw1 in *.
  assert (invariant w1) as Hinv1 by (now apply invariant_register).
  assert (observedNodes w1 = observedNodes w ++ [(h, mkOptions cb stop)]) as Hm1.
  { rewrite Hm. now apply JsMapFacts.keys_set_new. }
  assert (JsMap.has h (observedNodes w1) = true) as Hhas.
  { unfold JsMap.has. rewrite Hm. now rewrite JsMapFacts.get_set_same. }
  assert (w2 = w1) as -> by (now apply register_known).
  assert (is_live w = true) as Hlive by (unfold is_live; now rewrite Ho).
  split; [reflexivity|]. split; [exact Hm1|]. split; [|split; [|split]].
  - apply NoDup_count_occ'; [exact (inv_registry w1 Hinv1)|].
    now apply JsMapFacts.has_true.
  - now rewrite Hlive in Hx.
  - rewrite Ht. now apply (inv_pending_empty w Hinv).
  - exists (observe h io). split.
    + rewrite Hw1. unfold registry_set, sensor_observe. now rewrite Ho.
    + destruct (inv_targets w Hinv io Ho) as [Hnd _].
      apply NoDup_count_occ'; [now apply NoDup_observe|].
      apply In_observe. now left.
Qed.

(** C2.  Without a sensor the second registration of an element is not a
    no-op.  The guard looks the element up in the registry only, where a
    queued element is not yet: the second call pushes a second queue entry,
    and the flush then calls [observe] twice and leaves the registry entry
    with the settings of the second call. *)
Theorem duplicate_registration_while_pending :
  let w1 := registerObserver (Some 7) (Sample.setIsVisible_of 1) false (initial None) in
  let w2 := registerObserver (Some 7) (Sample.setIsVisible_of 2) true w1 in
  let w3 := world_of (step Sample.host w2 Sample.attach) in
  w2 <> w1 /\
  tempNodes w2 = [mkTemp 7 (Sample.setIsVisible_of 1) false;
                  mkTemp 7 (Sample.setIsVisible_of 2) true] /\
  filter (subscribes 7) (trace w3) = [EvObserve 7; EvObserve 7] /\
  observedNodes w3 = [(7, mkOptions (Sample.setIsVisible_of 2) true)].
Proof.
  repeat split. intros H. discriminate H.
Qed.

(** The same two calls made after the root is attached: the second one
    changes nothing. *)
Example example_second_registration_live :
  let w := run Sample.host [Sample.attach] (initial None) in
  let w1 := registerObserver (Some 7) (Sample.setIsVisible_of 1) false w in
  let w2 := registerObserver (Some 7) (Sample.setIsVisible_of 2) true w1 in
  w2 = w1 /\
  filter (subscribes 7) (trace w2) = [EvObserve 7] /\
  observedNodes w2 = [(7, mkOptions (Sample.setIsVisible_of 1) false)].
Proof. repeat split. Qed.

(** ** Cancellation *)

(** The two ways into the registry. *)
Lemma registered_live (h : Element) (cb : VisibilityCallback) (stop : bool)
      (w : World) (io : IntersectionObserver) :
  observerRef w = Some io ->
  JsMap.get h (observedNodes w) = None ->
  JsMap.get h (observedNodes (registerObserver (Some h) cb stop w))
  = Some (mkOptions cb stop).
Proof.
  intros Ho Hget. simpl. apply JsMapFacts.has_false in Hget. rewrite Hget, Ho.
  destruct (subscribe_effect h (mkOptions cb stop) w) as (Hm & _). cbv zeta in Hm.
  rewrite Hm. apply JsMapFacts.get_set_same.
Qed.

Lemma registered_by_flush (host : Host)
      (h : Element) (cb : VisibilityCallback) (stop : bool) (w : World)
      (rootMargin : option string) (threshold : Threshold) (root : HTMLElement) :
  observerRef w = None ->
  JsMap.get h (observedNodes w) = None ->
  positive_rootMargin host rootMargin
    && no_auto_overflow (computedStyle root) = false ->
  observer_error host rootMargin threshold = None ->
  JsMap.get h (observedNodes
                 (run host
                      [OpRegister (Some h) cb stop;
                       OpRootRef rootMargin threshold (Some root)] w))
  = Some (mkOptions cb stop).
Proof.
  intros Ho Hget Hcheck Haccept.
  change (run host
              [OpRegister (Some h) cb stop;
               OpRootRef rootMargin threshold (Some root)] w)
    with (world_of (rootRef host rootMargin threshold (Some root)
                            (registerObserver (Some h) cb stop w))).
  assert (registerObserver (Some h) cb stop w = temp_push (mkTemp h cb stop) w) as ->.
  { unfold registerObserver. apply JsMapFacts.has_false in Hget. now rewrite Hget, Ho. }
  destruct (rootRef_attach host rootMargin threshold root
                           (temp_push (mkTemp h cb stop) w) Hcheck Haccept)
    as (w' & Hrun & Hm & _).
  rewrite Hrun. cbn [world_of]. rewrite Hm. unfold temp_push. cbn [tempNodes observedNodes].
  unfold flushed. rewrite fold_left_app. cbn [fold_left node temp_options].
  apply JsMapFacts.get_set_same.
Qed.

(** C5, as the code has it.  A target that is in the registry, put there by
    a registration with a live sensor or by the flush of the pending queue,
    and whose callback is not also the callback of an earlier registry
    entry: [registerObserver] with an absent element and that callback
    takes the target out of the registry (and off the sensor, when one
    exists) before it returns, and from then on no operation invokes a
    callback for that element, whatever the ticks, until the element is
    registered again. *)
Theorem unregister_silences (host : Host)
        (w : World) (h : Element) (o : NodeOptions) (stop : bool) :
  invariant w ->
  JsMap.get h (observedNodes w) = Some o ->
  first_with_callback (visibilityCallback o) (observedNodes w) = Some h ->
  let w1 := registerObserver None (visibilityCallback o) stop w in
  JsMap.get h (observedNodes w1) = None /\
  extends w w1 (retirement (is_live w) h) /\
  forall ops,
    forallb (fun op => negb (registers h op)) ops = true ->
    quiet h w1 (run host ops w1) /\
    JsMap.get h (observedNodes (run host ops w1)) = None.
Proof.
  intros Hinv Hget Hfirst w1.
  assert (w1 = registry_delete h (sensor_unobserve h w)) as Hw1.
  { unfold w1. simpl. now rewrite unregister_loop_first, Hfirst. }
  destruct (retire_effect h w) as (Hm & Ht & _ & _ & Hx). cbv zeta in *.
  rewrite <- Hw1 in *.
  assert (untracked h w1) as Hu.
  { split.
    - rewrite Hm. apply JsMapFacts.get_delete_same. exact (inv_registry w Hinv).
    - rewrite Ht. eapply Forall_impl; [|exact (inv_pending_fresh w Hinv)].
      intros t Hfresh Heq. simpl in Hfresh. rewrite Heq in Hfresh. congruence. }
  split; [apply Hu|]. split; [exact Hx|].
  intros ops Hops.
  destruct (untracked_run host h ops w1 Hu Hops) as [Hu' Hq].
  split; [exact Hq | apply Hu'].
Qed.

Lemma unregister_silences_witness :
  let w := run Sample.host
               [OpRegister (Some 1) (Sample.setIsVisible_of 1) false;
                Sample.attach;
                OpRegister (Some 2) (Sample.setIsVisible_of 2) false]
               (initial None) in
  let w1 := registerObserver None (Sample.setIsVisible_of 1) false w in
  invariant w /\
  JsMap.get 1 (observedNodes w) = Some (mkOptions (Sample.setIsVisible_of 1) false) /\
  first_with_callback (Sample.setIsVisible_of 1) (observedNodes w) = Some 1 /\
  quiet 1 w1 (run Sample.host
                  [OpTick [mkEntry 1 true; mkEntry 2 true]; OpTick [mkEntry 1 false]] w1).
Proof.
  intros w w1.
  assert (invariant w) as Hinv by evaluate_invariant.
  split; [exact Hinv | split; [reflexivity | split; [reflexivity|]]].
  exact (proj1 (proj2 (proj2
           (unregister_silences Sample.host w 1
              (mkOptions (Sample.setIsVisible_of 1) false) false Hinv eq_refl eq_refl))
           [OpTick [mkEntry 1 true; mkEntry 2 true]; OpTick [mkEntry 1 false]] eq_refl)).
Defined.

(** C5, as stated, fails.  Elements 1 and 2 are registered, with a live
    sensor, under one and the same callback.  The unregistration meant for
    element 2 can only name that callback; the loop stops at element 1.
    Element 2 stays in the registry and the next tick that reports it
    invokes the callback. *)
Lemma unregister_shared_callback :
  let cb := Sample.setIsVisible_of 1 in
  let w := run Sample.host
               [Sample.attach; OpRegister (Some 1) cb false; OpRegister (Some 2) cb false]
               (initial None) in
  let w1 := registerObserver None cb false w in
  let w2 := run Sample.host [OpTick [mkEntry 2 true]] w1 in
  JsMap.get 2 (observedNodes w) = Some (mkOptions cb false) /\
  JsMap.get 2 (observedNodes w1) = Some (mkOptions cb false) /\
  extends w1 w2 [EvCall 2 cb true] /\
  ~ quiet 2 w1 w2.
Proof.
  intros cb w w1 w2.
  assert (extends w1 w2 [EvCall 2 cb true]) as Hx by reflexivity.
  split; [reflexivity | split; [reflexivity | split; [exact Hx|]]].
  intros (evs & Hx' & Hq).
  rewrite (extends_inj w1 w2 evs [EvCall 2 cb true] Hx' Hx) in Hq.
  inversion_clear Hq as [|? ? Hcall _]. discriminate Hcall.
Qed.

(** An unregistration that comes while the element still waits in the
    pending queue finds nothing in the registry and leaves the queue as it
    is; the element is observed at the flush and called at the next tick. *)
Example unregister_while_pending :
  let cb := Sample.setIsVisible_of 1 in
  let w := registerObserver (Some 1) cb true (initial None) in
  let w1 := registerObserver None cb true w in
  let w2 := run Sample.host [Sample.attach; OpTick [mkEntry 1 true]] w1 in
  w1 = w /\
  extends w1 w2 [EvNewObserver 1000; EvObserve 1; EvSet 1;
                 EvCall 1 cb true; EvUnobserve 1; EvDelete 1].
Proof. split; reflexivity. Qed.

(** * Further properties *)

(** ** Reading the trace *)

Lemma emitted_extends (w w' : World) (evs : list Event) :
  extends w w' evs -> emitted w w' = evs.
Proof.
  unfold extends, emitted. intros ->.
  rewrite skipn_app, skipn_all, Nat.sub_diag. reflexivity.
Qed.

Lemma delivered_app (h : Element) (a b : list Event) :
  delivered h (a ++ b) = delivered h a ++ delivered h b.
Proof.
  induction a as [|ev a IH]; simpl; [reflexivity|].
  destruct ev; trivial. destruct (Nat.eqb n h); simpl; now rewrite IH.
Qed.

Lemma delivered_quiet (h : Element) (evs : list Event) :
  Forall (fun ev => calls h ev = false) evs -> delivered h evs = [].
Proof.
  induction 1 as [|ev evs Hev _ IH]; simpl; [reflexivity|].
  destruct ev; trivial. simpl in Hev. now rewrite Hev.
Qed.

Lemma filter_all {A : Type} (f : A -> bool) (l : list A) :
  (forall x, In x l -> f x = true) -> filter f l = l.
Proof.
  induction l as [|x l IH]; intros H; simpl; [reflexivity|].
  rewrite (H x (or_introl eq_refl)). f_equal. apply IH. intros y Hy. apply H. now right.
Qed.

Lemma filter_filter {A : Type} (f g : A -> bool) (l : list A) :
  filter f (filter g l) = filter (fun x => g x && f x) l.
Proof.
  induction l as [|x l IH]; simpl; [reflexivity|].
  destruct (g x); simpl; [destruct (f x)|]; now rewrite IH.
Qed.

(** ** What one pair emits *)

Lemma dispatch_events (w : World) (e : IntersectionObserverEntry) :
  extends w (dispatch_entry w e) (pair_events (is_live w) (observedNodes w) e).
Proof.
  unfold pair_events.
  destruct (JsMap.get (target e) (observedNodes w)) as [o|] eqn:G.
  - destruct (isIntersecting e && stopObservingOnceVisible o) eqn:B.
    + now destruct (dispatch_retire w e o G B) as (_ & _ & _ & Hx).
    + now destruct (dispatch_keep w e o G B) as (_ & _ & _ & Hx).
  - rewrite dispatch_absent by assumption. apply extends_refl.
Qed.

Lemma dispatch_counter (w : World) (e : IntersectionObserverEntry) :
  initiallyVisibleElements (dispatch_entry w e) = initiallyVisibleElements w.
Proof.
  unfold dispatch_entry.
  destruct (JsMap.get (target e) (observedNodes w)) as [o|]; [|reflexivity].
  destruct (isIntersecting e && stopObservingOnceVisible o); [|reflexivity].
  now destruct (retire_effect (target e) (invoke (target e) o (isIntersecting e) w))
    as (_ & _ & _ & Hc & _).
Qed.

Lemma delete_as_filter (k : Element) (m : JsMap.t) :
  JsMap.ok m ->
  JsMap.delete k m = filter (fun entry => negb (Nat.eqb (fst entry) k)) m.
Proof.
  unfold JsMap.ok. induction m as [|[k0 v0] rest IH]; simpl; [reflexivity|].
  intros Hnd. inversion_clear Hnd as [|? ? Hnotin Hrest].
  destruct (Nat.eqb_spec k0 k) as [->|Hne]; simpl.
  - symmetry. apply filter_all. intros [k' v'] Hin. simpl.
    apply negb_true_iff, Nat.eqb_neq. intros ->. apply Hnotin.
    change k with (fst (k, v')). now apply in_map.
  - now rewrite IH.
Qed.

Lemma dispatch_registry (w : World) (e : IntersectionObserverEntry) :
  JsMap.ok (observedNodes w) ->
  observedNodes (dispatch_entry w e)
  = filter (fun entry => negb (retired_by [e] entry)) (observedNodes w).
Proof.
  intros Hok.
  assert (forall k o, In (k, o) (observedNodes w) -> k = target e ->
                      JsMap.get (target e) (observedNodes w) = Some o) as Hsame.
  { intros k o Hin ->. now apply JsMapFacts.In_get. }
  destruct (JsMap.get (target e) (observedNodes w)) as [o|] eqn:G.
  - destruct (isIntersecting e && stopObservingOnceVisible o) eqn:B.
    + destruct (dispatch_retire w e o G B) as (Hm & _). cbv zeta in Hm.
      rewrite Hm, delete_as_filter by assumption.
      apply filter_ext_in. intros [k o'] Hin. unfold retired_by, reported. simpl.
      rewrite orb_false_r, (Nat.eqb_sym (target e) k).
      destruct (Nat.eqb_spec k (target e)) as [Heq|Hne]; simpl.
      * specialize (Hsame k o' Hin Heq). injection Hsame as ->.
        apply andb_true_iff in B as [-> ->]. reflexivity.
      * now rewrite andb_false_r.
    + destruct (dispatch_keep w e o G B) as (Hm & _). cbv zeta in Hm.
      rewrite Hm. symmetry. apply filter_all. intros [k o'] Hin.
      unfold retired_by, reported. simpl.
      rewrite orb_false_r, (Nat.eqb_sym (target e) k).
      destruct (Nat.eqb_spec k (target e)) as [Heq|Hne]; simpl.
      * specialize (Hsame k o' Hin Heq). injection Hsame as ->.
        rewrite andb_comm in B. now rewrite B.
      * now rewrite andb_false_r.
  - rewrite dispatch_absent by assumption. symmetry. apply filter_all.
    intros [k o'] Hin. unfold retired_by, reported. simpl.
    rewrite orb_false_r, (Nat.eqb_sym (target e) k).
    destruct (Nat.eqb_spec k (target e)) as [Heq|Hne]; simpl.
    + specialize (Hsame k o' Hin Heq). congruence.
    + now rewrite andb_false_r.
Qed.

(** X1.  The registry after a tick is the registry before it without the
    one-shot entries the tick reports as intersecting: every other entry
    is kept, in place and with its settings, and none is added.  The pending
    queue, the bootstrap counter and the existence of the sensor are as
    before. *)
Theorem tick_registry (es : list IntersectionObserverEntry) (w : World) :
  JsMap.ok (observedNodes w) ->
  let w' := onIntersection es w in
  observedNodes w'
  = filter (fun entry => negb (retired_by es entry)) (observedNodes w) /\
  JsMap.ok (observedNodes w') /\
  tempNodes w' = tempNodes w /\
  initiallyVisibleElements w' = initiallyVisibleElements w /\
  is_live w' = is_live w.
Proof.
  revert w. induction es as [|e es IH]; intros w Hok; cbv zeta.
  - cbn [onIntersection fold_left]. repeat split; trivial.
    symmetry. apply filter_all. intros [k o] _. unfold retired_by, reported.
    simpl. now rewrite andb_false_r.
  - rewrite onIntersection_cons.
    destruct (dispatch_frame w e) as (Ht & Hl & Hok' & _).
    cbv zeta in *. specialize (Hok' Hok).
    destruct (IH (dispatch_entry w e) Hok') as (Hm & Hok2 & Ht2 & Hc2 & Hl2).
    cbv zeta in *.
    rewrite Ht2, Hc2, Hl2, Ht, Hl, dispatch_counter.
    split; [|repeat split; trivial].
    rewrite Hm, dispatch_registry, filter_filter by assumption.
    apply filter_ext. intros [k o]. unfold retired_by, reported. simpl.
    destruct (stopObservingOnceVisible o); simpl; [|reflexivity].
    now rewrite orb_false_r, negb_orb.
Qed.

Lemma tick_registry_witness :
  let w := run Sample.host
               [Sample.attach;
                OpRegister (Some 1) (Sample.setIsVisible_of 1) true;
                OpRegister (Some 2) (Sample.setIsVisible_of 2) false;
                OpRegister (Some 3) (Sample.setIsVisible_of 3) true]
               (initial None) in
  let es := [mkEntry 2 true; mkEntry 3 false; mkEntry 1 true; mkEntry 9 true] in
  JsMap.ok (observedNodes w) /\
  observedNodes (onIntersection es w)
  = filter (fun entry => negb (retired_by es entry)) (observedNodes w) /\
  JsMap.keys (observedNodes (onIntersection es w)) = [2; 3].
Proof.
  intros w es.
  assert (JsMap.ok (observedNodes w)) as Hok by (unfold JsMap.ok; evaluate_NoDup).
  split; [exact Hok | split; [|reflexivity]].
  exact (proj1 (tick_registry es w Hok)).
Defined.

(** ** Pairs of one tick *)

Lemma tick_events_from (es : list IntersectionObserverEntry) (w : World)
      (m : JsMap.t) (live : bool) :
  is_live w = live ->
  (forall e, In e es ->
     JsMap.get (target e) (observedNodes w) = JsMap.get (target e) m) ->
  NoDup (map target es) ->
  extends w (onIntersection es w) (flat_map (pair_events live m) es).
Proof.
  revert w. induction es as [|e es IH]; intros w Hl Hm Hnd.
  - apply extends_refl.
  - rewrite onIntersection_cons. simpl flat_map.
    inversion_clear Hnd as [|? ? Hnotin Hnd'].
    destruct (dispatch_frame w e) as (_ & Hl' & _ & Hget & _). cbv zeta in *.
    eapply extends_trans.
    + assert (pair_events live m e = pair_events (is_live w) (observedNodes w) e) as ->.
      { unfold pair_events. rewrite Hl, (Hm e (or_introl eq_refl)). reflexivity. }
      apply dispatch_events.
    + apply IH; [congruence | | assumption].
      intros e' Hin. rewrite Hget; [apply Hm; now right|].
      intros Heq. apply Hnotin. rewrite <- Heq. now apply in_map.
Qed.

(** X2.  In a tick that names no element twice, the pairs do not interfere:
    the tick emits, pair after pair in the order of the tick, what each
    pair emits on its own against the registry the tick started from (the
    callback of the pair's element with the pair's value, followed by the
    retirement of a one-shot element reported as intersecting; nothing for
    an element that is not registered). *)
Theorem tick_pairs_independent (es : list IntersectionObserverEntry) (w : World) :
  NoDup (map target es) ->
  extends w (onIntersection es w)
          (flat_map (pair_events (is_live w) (observedNodes w)) es).
Proof. intros Hnd. now apply tick_events_from. Qed.

Lemma tick_pairs_independent_witness :
  let w := run Sample.host
               [Sample.attach;
                OpRegister (Some 1) (Sample.setIsVisible_of 1) true;
                OpRegister (Some 2) (Sample.setIsVisible_of 2) false]
               (initial None) in
  let es := [mkEntry 2 true; mkEntry 7 true; mkEntry 1 true] in
  NoDup (map target es) /\
  extends w (onIntersection es w)
          [EvCall 2 (Sample.setIsVisible_of 2) true;
           EvCall 1 (Sample.setIsVisible_of 1) true; EvUnobserve 1; EvDelete 1].
Proof.
  intros w es.
  assert (NoDup (map target es)) as Hnd by evaluate_NoDup.
  split; [exact Hnd|]. exact (tick_pairs_independent es w Hnd).
Defined.

Lemma tick_continuous (h : Element) (o : NodeOptions)
      (es : list IntersectionObserverEntry) (w : World) :
  JsMap.get h (observedNodes w) = Some o ->
  stopObservingOnceVisible o = false ->
  JsMap.get h (observedNodes (onIntersection es w)) = Some o /\
  exists evs,
    extends w (onIntersection es w) evs /\
    delivered h evs
    = map isIntersecting (filter (fun e => Nat.eqb (target e) h) es).
Proof.
  intros Hget Hstop. revert w Hget.
  induction es as [|e es IH]; intros w Hget.
  - split; [assumption|]. exists []. split; [apply extends_refl | reflexivity].
  - rewrite onIntersection_cons. simpl filter.
    destruct (Nat.eqb_spec (target e) h) as [Heq|Hne].
    + subst h.
      assert (isIntersecting e && stopObservingOnceVisible o = false) as B
          by (rewrite Hstop; apply andb_false_r).
      destruct (dispatch_keep w e o Hget B) as (Hm & _ & _ & Hx). cbv zeta in *.
      destruct (IH (dispatch_entry w e)) as (Hget' & evs & Hx' & Hd);
        [now rewrite Hm|].
      split; [assumption|]. eexists. split; [eapply extends_trans; eassumption|].
      simpl. now rewrite Nat.eqb_refl, Hd.
    + destruct (dispatch_frame w e) as (_ & _ & _ & Hm & evs1 & Hx & Hev).
      cbv zeta in *.
      destruct (IH (dispatch_entry w e)) as (Hget' & evs & Hx' & Hd);
        [rewrite Hm by congruence; assumption|].
      split; [assumption|]. exists (evs1 ++ evs).
      split; [eapply extends_trans; eassumption|].
      rewrite delivered_app, Hd, delivered_quiet; [reflexivity|].
      eapply Forall_impl; [|apply (Hev h); congruence]. now intros ev [Hc _].
Qed.

(** X3.  A registered element that is not one-shot stays in the registry
    through any tick, with its settings, and its callback is invoked once
    for each pair of the tick that names the element, with that pair's
    value, in the order of the tick. *)
Theorem continuous_target_deliveries (h : Element) (o : NodeOptions)
        (es : list IntersectionObserverEntry) (w : World) :
  JsMap.get h (observedNodes w) = Some o ->
  stopObservingOnceVisible o = false ->
  let w' := onIntersection es w in
  JsMap.get h (observedNodes w') = Some o /\
  delivered h (emitted w w')
  = map isIntersecting (filter (fun e => Nat.eqb (target e) h) es).
Proof.
  intros Hget Hstop w'.
  destruct (tick_continuous h o es w Hget Hstop) as (Hget' & evs & Hx & Hd).
  split; [exact Hget'|]. unfold w'. now rewrite (emitted_extends _ _ _ Hx).
Qed.

Lemma continuous_target_deliveries_witness :
  let w := run Sample.host
               [Sample.attach;
                OpRegister (Some 1) (Sample.setIsVisible_of 1) false;
                OpRegister (Some 2) (Sample.setIsVisible_of 2) true]
               (initial None) in
  let es := [mkEntry 1 true; mkEntry 2 true; mkEntry 1 false; mkEntry 1 true] in
  JsMap.get 1 (observedNodes w) = Some (mkOptions (Sample.setIsVisible_of 1) false) /\
  delivered 1 (emitted w (onIntersection es w)) = [true; false; true].
Proof.
  intros w es. split; [reflexivity|].
  exact (proj2 (continuous_target_deliveries 1
                  (mkOptions (Sample.setIsVisible_of 1) false) es w eq_refl eq_refl)).
Defined.

(** ** The life of a one-shot element *)

Lemma tick_one_shot (h : Element) (cb : VisibilityCallback)
      (es : list IntersectionObserverEntry) (w : World) :
  armed h cb w ->
  exists evs k,
    extends w (onIntersection es w) evs /\
    ((armed h cb (onIntersection es w) /\ delivered h evs = repeat false k) \/
     (untracked h (onIntersection es w) /\ delivered h evs = repeat false k ++ [true])).
Proof.
  revert w. induction es as [|e es IH]; intros w Harmed.
  - exists [], 0. split; [apply extends_refl|]. left. now split.
  - rewrite onIntersection_cons. destruct Harmed as (Hok & Hget & Htemp).
    destruct (Nat.eq_dec (target e) h) as [Heq|Hne].
    + destruct e as [t b]. simpl in Heq. subst t. destruct b.
      * destruct (dispatch_retire w (mkEntry h true) _ Hget eq_refl) as (Hm & Ht & _ & Hx).
        cbv zeta in *. simpl in *.
        set (w1 := dispatch_entry w (mkEntry h true)) in *.
        assert (untracked h w1) as Hu.
        { split; [|now rewrite Ht]. rewrite Hm. now apply JsMapFacts.get_delete_same. }
        destruct (untracked_tick h es w1 Hu) as [Hu' (rest & Hx' & Hq)].
        eexists. exists 0. split; [eapply extends_trans; eassumption|].
        right. split; [assumption|].
        rewrite delivered_app, (delivered_quiet h rest Hq), app_nil_r.
        simpl. rewrite Nat.eqb_refl.
        now rewrite (delivered_quiet h _ (retirement_quiet (is_live w) h h)).
      * destruct (dispatch_keep w (mkEntry h false) _ Hget eq_refl) as (Hm & Ht & _ & Hx).
        cbv zeta in *. simpl in *.
        set (w1 := dispatch_entry w (mkEntry h false)) in *.
        destruct (IH w1) as (evs & k & Hx' & Hcase).
        { unfold armed. now rewrite Hm, Ht. }
        eexists. exists (S k). split; [eapply extends_trans; eassumption|].
        simpl. rewrite Nat.eqb_refl.
        destruct Hcase as [[Ha Hd]|[Hu Hd]]; rewrite Hd; [left | right]; now split.
    + destruct (dispatch_frame w e) as (Ht & _ & Hok' & Hm & evs1 & Hx & Hev).
      cbv zeta in *.
      destruct (IH (dispatch_entry w e)) as (evs & k & Hx' & Hcase).
      { unfold armed. rewrite Ht, Hm by congruence. repeat split; auto. }
      exists (evs1 ++ evs), k. split; [eapply extends_trans; eassumption|].
      rewrite delivered_app, (delivered_quiet h evs1); [exact Hcase|].
      eapply Forall_impl; [|apply (Hev h); congruence]. now intros ev [Hc _].
Qed.

Section OneShot.

Variable host : Host.

Lemma step_one_shot (h : Element) (cb : VisibilityCallback) (w : World) (op : Op) :
  armed h cb w -> registers h op = false ->
  exists evs k,
    extends w (world_of (step host w op)) evs /\
    ((armed h cb (world_of (step host w op)) /\
      delivered h evs = repeat false k) \/
     (untracked h (world_of (step host w op)) /\
      (delivered h evs = repeat false k \/
       delivered h evs = repeat false k ++ [true]))).
Proof.
  intros Harmed Hop.
  assert (forall v, armed h cb v -> quiet h w v ->
            exists evs k, extends w v evs /\
              ((armed h cb v /\ delivered h evs = repeat false k) \/
               (untracked h v /\ (delivered h evs = repeat false k \/
                                  delivered h evs = repeat false k ++ [true]))))
    as Hstay.
  { intros v Hv (evs & Hx & Hq). exists evs, 0. split; [exact Hx|].
    left. split; [exact Hv | now apply delivered_quiet]. }
  assert (forall v, untracked h v -> quiet h w v ->
            exists evs k, extends w v evs /\
              ((armed h cb v /\ delivered h evs = repeat false k) \/
               (untracked h v /\ (delivered h evs = repeat false k \/
                                  delivered h evs = repeat false k ++ [true]))))
    as Hgone.
  { intros v Hv (evs & Hx & Hq). exists evs, 0. split; [exact Hx|].
    right. split; [exact Hv | left; now apply delivered_quiet]. }
  destruct Harmed as (Hok & Hget & Htemp).
  destruct op as [n cb' stop|rootMargin threshold n|es| |hk]; simpl.
  - (* registerObserver *)
    destruct n as [n|]; simpl.
    + assert (h <> n) as Hne.
      { intros ->. simpl in Hop. now rewrite Nat.eqb_refl in Hop. }
      destruct (JsMap.has n (observedNodes w)).
      { apply Hstay; [now repeat split | apply quiet_refl]. }
      destruct (observerRef w) as [io|] eqn:Ho.
      * apply Hstay; [|apply quiet_subscribe].
        destruct (subscribe_effect n (mkOptions cb' stop) w) as (Hm & Ht & _).
        cbv zeta in *. unfold armed. rewrite Hm, Ht.
        repeat split; [now apply JsMapFacts.ok_set | | assumption].
        now rewrite JsMapFacts.get_set_other.
      * apply Hstay.
        -- unfold armed. simpl. repeat split; [assumption..|].
           apply Forall_app. split; [assumption|]. repeat constructor. simpl. congruence.
        -- exists [EvPush n]. split; [reflexivity | repeat constructor].
    + rewrite unregister_loop_first.
      destruct (first_with_callback cb' (observedNodes w)) as [k|] eqn:F.
      * destruct (retire_effect k w) as (Hm & Ht & _). cbv zeta in *.
        destruct (Nat.eq_dec k h) as [->|Hne].
        -- apply Hgone; [|apply quiet_retire].
           unfold untracked. rewrite Hm, Ht.
           split; [now apply JsMapFacts.get_delete_same | assumption].
        -- apply Hstay; [|apply quiet_retire].
           unfold armed. rewrite Hm, Ht.
           repeat split; [now apply JsMapFacts.ok_delete | | assumption].
           rewrite JsMapFacts.get_delete_other by congruence. assumption.
      * apply Hstay; [now repeat split | apply quiet_refl].
  - (* rootRef *)
    destruct n as [root|].
    + destruct (positive_rootMargin host rootMargin
                && no_auto_overflow (computedStyle root)) eqn:Hcheck.
      * rewrite rootRef_throw by assumption. simpl.
        apply Hstay; [now repeat split | apply quiet_refl].
      * destruct (observer_error host rootMargin threshold) as [message|] eqn:Hctor.
        { rewrite (rootRef_rejected host rootMargin threshold root w message Hcheck Hctor).
          simpl. apply Hstay; [now repeat split | apply quiet_refl]. }
        destruct (rootRef_attach host rootMargin threshold root w Hcheck Hctor)
          as (w' & Hrun & Hm & Ht & _ & _ & Hx).
        rewrite Hrun. simpl. apply Hstay.
        -- unfold armed. rewrite Hm, Ht.
           repeat split; [now apply flushed_ok | | constructor].
           now rewrite flushed_get_other.
        -- eexists. split; [exact Hx|]. constructor; [reflexivity|].
           apply Forall_flat_map. apply Forall_forall. intros t _. repeat constructor.
    + simpl. unfold disconnect. destruct (observerRef w).
      * apply Hstay; [now repeat split|].
        exists [EvDisconnect]. split; [reflexivity | repeat constructor].
      * apply Hstay; [now repeat split | apply quiet_refl].
  - (* a tick *)
    destruct (tick_one_shot h cb es w (conj Hok (conj Hget Htemp)))
      as (evs & k & Hx & [[Ha Hd]|[Hu Hd]]).
    + exists evs, k. split; [exact Hx|]. left. now split.
    + exists evs, k. split; [exact Hx|]. right. split; [exact Hu | now right].
  - (* the provider's cleanup *)
    apply Hstay.
    + unfold armed. simpl. repeat split; [assumption.. | constructor].
    + exists []. split; [|constructor]. unfold extends. simpl. now rewrite app_nil_r.
  - (* a render of some consumer *)
    unfold useIntersectionObserver.
    destruct (isInitiallyVisible hk); simpl.
    { apply Hstay; [now repeat split | apply quiet_refl]. }
    destruct (truthy (initiallyVisibleElements w)); simpl.
    + apply Hstay; [now repeat split|].
      exists []. split; [|constructor]. unfold extends. simpl. now rewrite app_nil_r.
    + apply Hstay; [now repeat split | apply quiet_refl].
Qed.

Lemma run_one_shot (h : Element) (cb : VisibilityCallback) (ops : list Op) (w : World) :
  armed h cb w ->
  forallb (fun op => negb (registers h op)) ops = true ->
  exists evs k,
    extends w (run host ops w) evs /\
    ((armed h cb (run host ops w) /\
      delivered h evs = repeat false k) \/
     (untracked h (run host ops w) /\
      (delivered h evs = repeat false k \/
       delivered h evs = repeat false k ++ [true]))).
Proof.
  revert w. induction ops as [|op ops IH]; intros w Harmed Hops.
  - exists [], 0. split; [apply extends_refl|]. left. now split.
  - simpl in Hops. apply andb_true_iff in Hops as [Hop Hops].
    apply negb_true_iff in Hop. simpl.
    destruct (step_one_shot h cb w op Harmed Hop) as (evs1 & k1 & Hx1 & Hcase).
    destruct Hcase as [[Ha Hd]|[Hu Hd]].
    + destruct (IH _ Ha Hops) as (evs2 & k2 & Hx2 & Hcase2).
      exists (evs1 ++ evs2), (k1 + k2).
      split; [eapply extends_trans; eassumption|].
      rewrite delivered_app, Hd, repeat_app.
      destruct Hcase2 as [[Ha2 Hd2]|[Hu2 [Hd2|Hd2]]]; rewrite Hd2.
      * left. now split.
      * right. split; [assumption | now left].
      * right. split; [assumption | right; now rewrite app_assoc].
    + destruct (untracked_run host h ops _ Hu Hops)
        as [Hu2 (evs2 & Hx2 & Hq)].
      exists (evs1 ++ evs2), k1.
      split; [eapply extends_trans; eassumption|].
      rewrite delivered_app, (delivered_quiet h evs2 Hq), app_nil_r.
      right. now split.
Qed.

End OneShot.

(** X4.  A one-shot element of the registry, followed through any sequence
    of operations that does not register it again: its callback is invoked
    with [false] any number of times, then at most once with [true], and
    never after that [true].  After the run the element is either still in
    the registry with the settings it had, or not in the registry; once
    [true] was delivered it is not. *)
Theorem one_shot_deliveries (host : Host)
        (w : World) (h : Element) (cb : VisibilityCallback) (ops : list Op) :
  invariant w ->
  JsMap.get h (observedNodes w) = Some (mkOptions cb true) ->
  forallb (fun op => negb (registers h op)) ops = true ->
  let w' := run host ops w in
  false_then_true (delivered h (emitted w w')) /\
  (JsMap.get h (observedNodes w') = Some (mkOptions cb true) \/
   JsMap.get h (observedNodes w') = None) /\
  (In true (delivered h (emitted w w')) -> JsMap.get h (observedNodes w') = None).
Proof.
  intros Hinv Hget Hops w'.
  assert (armed h cb w) as Harmed.
  { split; [exact (inv_registry w Hinv)|]. split; [exact Hget|].
    eapply Forall_impl; [|exact (inv_pending_fresh w Hinv)].
    intros t Ht Heq. simpl in Ht. rewrite Heq in Ht. congruence. }
  destruct (run_one_shot host h cb ops w Harmed Hops)
    as (evs & k & Hx & Hcase).
  fold w' in Hx, Hcase. rewrite (emitted_extends _ _ _ Hx).
  destruct Hcase as [[(_ & Hget' & _) Hd]|[[Hgone _] Hd]].
  - rewrite Hd. split; [exists k; now left|]. split; [now left|].
    intros Hin. apply repeat_spec in Hin. discriminate.
  - split; [exists k; exact Hd|]. split; [now right|]. intros _. exact Hgone.
Qed.

Lemma one_shot_deliveries_witness :
  let w := run Sample.host
               [OpRegister (Some 1) (Sample.setIsVisible_of 1) true;
                Sample.attach;
                OpRegister (Some 2) (Sample.setIsVisible_of 2) false]
               (initial None) in
  let ops := [OpTick [mkEntry 1 false; mkEntry 2 true];
              OpRootRef Sample.rootMargin Sample.threshold None;
              OpTick [mkEntry 1 false; mkEntry 1 true; mkEntry 1 true];
              Sample.attach;
              OpTick [mkEntry 1 true]] in
  invariant w /\
  JsMap.get 1 (observedNodes w) = Some (mkOptions (Sample.setIsVisible_of 1) true) /\
  forallb (fun op => negb (registers 1 op)) ops = true /\
  false_then_true (delivered 1 (emitted w (run Sample.host ops w))).
Proof.
  intros w ops.
  assert (invariant w) as Hinv by evaluate_invariant.
  split; [exact Hinv | split; [reflexivity | split; [reflexivity|]]].
  exact (proj1 (one_shot_deliveries Sample.host w 1
                  (Sample.setIsVisible_of 1) ops Hinv eq_refl eq_refl)).
Defined.

(** The deliveries of that run. *)
Example example_one_shot_run :
  let w := run Sample.host
               [OpRegister (Some 1) (Sample.setIsVisible_of 1) true;
                Sample.attach;
                OpRegister (Some 2) (Sample.setIsVisible_of 2) false]
               (initial None) in
  let ops := [OpTick [mkEntry 1 false; mkEntry 2 true];
              OpRootRef Sample.rootMargin Sample.threshold None;
              OpTick [mkEntry 1 false; mkEntry 1 true; mkEntry 1 true];
              Sample.attach;
              OpTick [mkEntry 1 true]] in
  delivered 1 (emitted w (run Sample.host ops w)) = [false; false; true].
Proof. reflexivity. Qed.

(** ** Registering and unregistering *)

Lemma first_with_callback_snoc (cb : VisibilityCallback) (m : JsMap.t)
      (h : Element) (o : NodeOptions) :
  first_with_callback cb m = None ->
  same_function (visibilityCallback o) cb = true ->
  first_with_callback cb (m ++ [(h, o)]) = Some h.
Proof.
  intros Hnone Ho. induction m as [|[k v] rest IH]; simpl in *.
  - now rewrite Ho.
  - destruct (same_function (visibilityCallback v) cb); [discriminate | now apply IH].
Qed.

Lemma same_function_refl (cb : VisibilityCallback) : same_function cb cb = true.
Proof. apply Nat.eqb_refl. Qed.

Lemma unobserve_observe (h : Element) (io : IntersectionObserver) :
  ~ In h (io_targets io) -> unobserve h (observe h io) = io.
Proof.
  intros Hnotin. unfold observe.
  assert (existsb (Nat.eqb h) (io_targets io) = false) as ->.
  { apply not_true_iff_false. intros (x & Hx & ->%Nat.eqb_eq)%existsb_exists. tauto. }
  unfold unobserve. simpl. rewrite filter_app. simpl. rewrite Nat.eqb_refl. simpl.
  rewrite app_nil_r, filter_all; [now destruct io|].
  intros x Hx. apply negb_true_iff, Nat.eqb_neq. congruence.
Qed.

(** X5.  With a live sensor, registering an element that is not in the
    registry under a callback that no registry entry carries, and then
    unregistering by that callback, is a round trip: the registry, the
    sensor with its targets, the pending queue and the counter are what
    they were, and the trace has grown by [observe], [set], [unobserve],
    [delete] of that element. *)
Theorem register_unregister_round_trip (w : World) (io : IntersectionObserver)
        (h : Element) (cb : VisibilityCallback) (stop stop' : bool) :
  invariant w ->
  observerRef w = Some io ->
  JsMap.get h (observedNodes w) = None ->
  first_with_callback cb (observedNodes w) = None ->
  let w' := registerObserver None cb stop' (registerObserver (Some h) cb stop w) in
  observedNodes w' = observedNodes w /\
  observerRef w' = observerRef w /\
  tempNodes w' = tempNodes w /\
  initiallyVisibleElements w' = initiallyVisibleElements w /\
  extends w w' [EvObserve h; EvSet h; EvUnobserve h; EvDelete h].
Proof.
  intros Hinv Ho Hget Hfresh w'.
  assert (registerObserver (Some h) cb stop w
          = registry_set h (mkOptions cb stop) (sensor_observe h w)) as Hw1.
  { simpl. apply JsMapFacts.has_false in Hget. now rewrite Hget, Ho. }
  destruct (subscribe_effect h (mkOptions cb stop) w) as (Hm1 & Ht1 & Hl1 & Hc1 & Hx1).
  cbv zeta in *. rewrite <- Hw1 in Hm1, Ht1, Hl1, Hc1, Hx1.
  rewrite JsMapFacts.keys_set_new in Hm1 by assumption.
  assert (is_live w = true) as Hlive by (unfold is_live; now rewrite Ho).
  rewrite Hlive in Hx1.
  assert (w' = registry_delete h (sensor_unobserve h (registerObserver (Some h) cb stop w)))
    as Hw'.
  { unfold w'.
    change (registerObserver None cb stop' (registerObserver (Some h) cb stop w))
      with (unregister_loop (observedNodes (registerObserver (Some h) cb stop w)) cb
                            (registerObserver (Some h) cb stop w)).
    rewrite unregister_loop_first, Hm1.
    rewrite (first_with_callback_snoc cb (observedNodes w) h (mkOptions cb stop) Hfresh);
      [reflexivity | apply same_function_refl]. }
  destruct (retire_effect h (registerObserver (Some h) cb stop w))
    as (Hm2 & Ht2 & _ & Hc2 & Hx2).
  cbv zeta in *. rewrite <- Hw' in Hm2, Ht2, Hc2, Hx2. rewrite Hl1, Hlive in Hx2.
  assert (~ In h (io_targets io)) as Hnotin.
  { intros Hin. destruct (inv_targets w Hinv io Ho) as [_ Hsub].
    specialize (Hsub h Hin). apply JsMapFacts.has_false in Hget. congruence. }
  split; [|split; [|split; [congruence | split; [congruence|]]]].
  - rewrite Hm2, Hm1.
    rewrite (JsMapFacts.delete_middle h (mkOptions cb stop) (observedNodes w) []).
    + apply app_nil_r.
    + rewrite <- JsMapFacts.keys_set_new by assumption.
      apply JsMapFacts.ok_set. exact (inv_registry w Hinv).
  - rewrite Hw', Hw1.
    unfold registry_delete, sensor_unobserve, registry_set, sensor_observe.
    rewrite Ho. simpl. now rewrite unobserve_observe.
  - change [EvObserve h; EvSet h; EvUnobserve h; EvDelete h]
      with ([EvObserve h; EvSet h] ++ retirement true h).
    eapply extends_trans; eassumption.
Qed.

Lemma register_unregister_round_trip_witness :
  let w := run Sample.host
               [Sample.attach;
                OpRegister (Some 1) (Sample.setIsVisible_of 1) true;
                OpRegister (Some 2) (Sample.setIsVisible_of 2) false]
               (initial None) in
  let sensor := mkObserver 1000 Sample.rootMargin Sample.threshold [1; 2] in
  invariant w /\
  observerRef w = Some sensor /\
  JsMap.get 5 (observedNodes w) = None /\
  first_with_callback (Sample.setIsVisible_of 5) (observedNodes w) = None /\
  observedNodes (registerObserver None (Sample.setIsVisible_of 5) false
                   (registerObserver (Some 5) (Sample.setIsVisible_of 5) true w))
  = observedNodes w.
Proof.
  intros w sensor.
  assert (invariant w) as Hinv by evaluate_invariant.
  split; [exact Hinv | split; [reflexivity | split; [reflexivity | split; [reflexivity|]]]].
  exact (proj1 (register_unregister_round_trip w sensor 5 (Sample.setIsVisible_of 5)
                  true false Hinv eq_refl eq_refl eq_refl)).
Defined.

(** ** The counter is the hook's alone *)

Lemma register_counter (n : option Element) (cb : VisibilityCallback)
      (stop : bool) (w : World) :
  initiallyVisibleElements (registerObserver n cb stop w) = initiallyVisibleElements w.
Proof.
  destruct n as [n|]; simpl.
  - destruct (JsMap.has n (observedNodes w)); [reflexivity|].
    destruct (observerRef w) eqn:Ho; [|reflexivity].
    now destruct (subscribe_effect n (mkOptions cb stop) w) as (_ & _ & _ & Hc & _).
  - rewrite unregister_loop_first.
    destruct (first_with_callback cb (observedNodes w)) as [k|]; [|reflexivity].
    now destruct (retire_effect k w) as (_ & _ & _ & Hc & _).
Qed.

Lemma register_all_counter (rs : list TempNode) (w : World) :
  initiallyVisibleElements (register_all rs w) = initiallyVisibleElements w.
Proof.
  revert w. induction rs as [|r rs IH]; intros w; [reflexivity|].
  change (register_all (r :: rs) w)
    with (register_all rs (registerObserver (Some (node r)) (temp_visibilityCallback r)
                                            (temp_stopObservingOnceVisible r) w)).
  now rewrite IH, register_counter.
Qed.

Lemma tick_counter (es : list IntersectionObserverEntry) (w : World) :
  initiallyVisibleElements (onIntersection es w) = initiallyVisibleElements w.
Proof.
  revert w. induction es as [|e es IH]; intros w; [reflexivity|].
  now rewrite onIntersection_cons, IH, dispatch_counter.
Qed.

(** ** Registering before or after the root *)

Lemma observe_new (n : Element) (io : IntersectionObserver) :
  ~ In n (io_targets io) ->
  observe n io
  = mkObserver (io_root io) (io_rootMargin io) (io_threshold io) (io_targets io ++ [n]).
Proof.
  intros Hnotin. unfold observe.
  assert (existsb (Nat.eqb n) (io_targets io) = false) as ->; [|reflexivity].
  apply not_true_iff_false. intros (x & Hx & ->%Nat.eqb_eq)%existsb_exists. tauto.
Qed.

Lemma NoDup_snoc_step (l rest : list Element) (n : Element) :
  NoDup (l ++ n :: rest) -> ~ In n l /\ NoDup ((l ++ [n]) ++ rest).
Proof.
  intros Hnd. split.
  - apply NoDup_remove_2 in Hnd. intros Hin. apply Hnd. apply in_app_iff. now left.
  - now rewrite <- app_assoc.
Qed.

Lemma flush_sensor_exact (ts : list TempNode) (w : World) (io : IntersectionObserver) :
  observerRef w = Some io ->
  NoDup (io_targets io ++ map node ts) ->
  observerRef (fold_left flush_one ts w)
  = Some (mkObserver (io_root io) (io_rootMargin io) (io_threshold io)
                     (io_targets io ++ map node ts)).
Proof.
  revert w io. induction ts as [|t ts IH]; intros w io Ho Hnd; simpl.
  - rewrite app_nil_r, Ho. now destruct io.
  - simpl in Hnd. apply NoDup_snoc_step in Hnd as [Hnotin Hnd].
    rewrite (IH (flush_one w t) (observe (node t) io)).
    + rewrite observe_new by assumption. simpl. now rewrite <- app_assoc.
    + unfold flush_one, registry_set, sensor_observe. now rewrite Ho.
    + now rewrite observe_new.
Qed.

Lemma register_all_live (rs : list TempNode) (w : World) (io : IntersectionObserver) :
  observerRef w = Some io ->
  Forall (fun r => JsMap.get (node r) (observedNodes w) = None) rs ->
  NoDup (map node rs) ->
  NoDup (io_targets io ++ map node rs) ->
  observedNodes (register_all rs w) = observedNodes w ++ entries_of rs /\
  observerRef (register_all rs w)
  = Some (mkObserver (io_root io) (io_rootMargin io) (io_threshold io)
                     (io_targets io ++ map node rs)) /\
  tempNodes (register_all rs w) = tempNodes w.
Proof.
  revert w io. induction rs as [|r rs IH]; intros w io Ho Hfresh Hnd Hnd2.
  - simpl. rewrite !app_nil_r, Ho. now destruct io.
  - change (register_all (r :: rs) w)
      with (register_all rs (registerObserver (Some (node r)) (temp_visibilityCallback r)
                                              (temp_stopObservingOnceVisible r) w)).
    inversion_clear Hfresh as [|? ? Hr Hrs]. inversion_clear Hnd as [|? ? Hnotin Hnd'].
    simpl in Hnd2. apply NoDup_snoc_step in Hnd2 as [Hnew Hnd2].
    assert (registerObserver (Some (node r)) (temp_visibilityCallback r)
                             (temp_stopObservingOnceVisible r) w
            = registry_set (node r) (temp_options r) (sensor_observe (node r) w)) as ->.
    { simpl. apply JsMapFacts.has_false in Hr. now rewrite Hr, Ho. }
    destruct (subscribe_effect (node r) (temp_options r) w) as (Hm & Ht & _).
    cbv zeta in *. rewrite JsMapFacts.keys_set_new in Hm by assumption.
    destruct (IH (registry_set (node r) (temp_options r) (sensor_observe (node r) w))
                 (observe (node r) io)) as (Hm' & Ho' & Ht').
    + unfold registry_set, sensor_observe. now rewrite Ho.
    + rewrite Hm. rewrite Forall_forall in *. intros r' Hin.
      apply JsMapFacts.get_snoc; [now apply Hrs|].
      intros Heq. apply Hnotin. rewrite <- Heq. now apply in_map.
    + assumption.
    + now rewrite observe_new.
    + rewrite Hm', Ho', Ht', Hm, Ht, observe_new by assumption. simpl.
      now rewrite <- !app_assoc.
Qed.

(** X6.  For elements that are new to the registry and pairwise different,
    it makes no difference to the registry, the sensor, the queue and the
    counter whether they are registered before [rootRef] is called with the
    root (and wait in the pending queue) or after it.  When the root passes
    the overflow check and the constructor accepts the options, both orders
    end with the old registry entries followed by the new ones in
    registration order, with a sensor on the root, bound to the margin and
    the threshold, whose targets are the new elements in registration
    order, and with an empty queue.  When [rootRef] throws, both orders
    leave the elements in the queue. *)
Theorem registration_order_irrelevant (host : Host)
        (w0 : World) (rs : list TempNode)
        (rootMargin : option string) (threshold : Threshold) (root : HTMLElement) :
  observerRef w0 = None ->
  tempNodes w0 = [] ->
  Forall (fun r => JsMap.get (node r) (observedNodes w0) = None) rs ->
  NoDup (map node rs) ->
  let queued_first :=
    world_of (rootRef host rootMargin threshold (Some root) (register_all rs w0)) in
  let root_first :=
    register_all rs (world_of (rootRef host rootMargin threshold (Some root) w0)) in
  (observedNodes root_first = observedNodes queued_first /\
   observerRef root_first = observerRef queued_first /\
   tempNodes root_first = tempNodes queued_first /\
   initiallyVisibleElements root_first = initiallyVisibleElements queued_first) /\
  (positive_rootMargin host rootMargin
     && no_auto_overflow (computedStyle root) = false ->
   observer_error host rootMargin threshold = None ->
   observedNodes queued_first = observedNodes w0 ++ entries_of rs /\
   observerRef queued_first
   = Some (mkObserver (root_element root) rootMargin threshold (map node rs)) /\
   tempNodes queued_first = []) /\
  (forall message,
     rootRef host rootMargin threshold (Some root) w0 = Thrown message w0 ->
     observedNodes queued_first = observedNodes w0 /\
     observerRef queued_first = None /\
     tempNodes queued_first = rs).
Proof.
  intros Ho Ht Hfresh Hnd queued_first root_first.
  destruct (register_all_pending rs w0 Ho) as (Ho1 & Hm1 & Ht1).
  assert (tempNodes (register_all rs w0) = rs) as Hqueue.
  { rewrite Ht1, Ht. simpl. apply filter_all. intros r Hin.
    rewrite Forall_forall in Hfresh. apply negb_true_iff.
    now apply JsMapFacts.has_false, Hfresh. }
  assert (positive_rootMargin host rootMargin
            && no_auto_overflow (computedStyle root) = false ->
          observer_error host rootMargin threshold = None ->
          (observedNodes root_first = observedNodes queued_first /\
           observerRef root_first = observerRef queued_first /\
           tempNodes root_first = tempNodes queued_first /\
           initiallyVisibleElements root_first = initiallyVisibleElements queued_first) /\
          observedNodes queued_first = observedNodes w0 ++ entries_of rs /\
          observerRef queued_first
          = Some (mkObserver (root_element root) rootMargin threshold (map node rs)) /\
          tempNodes queued_first = []) as Hsuccess.
  { intros Hcheck Haccept.
    (* queued first *)
    destruct (rootRef_attach host rootMargin threshold root (register_all rs w0)
                             Hcheck Haccept)
      as (wq & Hrunq & Hmq & Htq & _ & Hcq & _).
    assert (queued_first = wq) as Hq by (unfold queued_first; now rewrite Hrunq).
    assert (observerRef wq
            = Some (mkObserver (root_element root) rootMargin threshold (map node rs)))
      as Hoq.
    { unfold rootRef in Hrunq. rewrite Hcheck, Haccept in Hrunq. injection Hrunq as <-.
      simpl. rewrite Hqueue.
      now rewrite (flush_sensor_exact rs
                     (new_observer root rootMargin threshold (register_all rs w0))
                     (mkObserver (root_element root) rootMargin threshold [])
                     eq_refl Hnd). }
    rewrite Hqueue, Hm1 in Hmq. rewrite flushed_fresh in Hmq by assumption.
    (* root first *)
    destruct (rootRef_attach host rootMargin threshold root w0 Hcheck Haccept)
      as (wr & Hrunr & Hmr & Htr & _ & Hcr & _).
    rewrite Ht in Hmr. simpl in Hmr.
    assert (observerRef wr
            = Some (mkObserver (root_element root) rootMargin threshold [])) as Hor.
    { unfold rootRef in Hrunr. rewrite Hcheck, Haccept, Ht in Hrunr.
      now injection Hrunr as <-. }
    assert (root_first = register_all rs wr) as Hr
        by (unfold root_first; now rewrite Hrunr).
    destruct (register_all_live rs wr _ Hor) as (Hm2 & Ho2 & Ht2);
      [now rewrite Hmr | assumption | assumption |].
    simpl in Ho2.
    rewrite Hq, Hr, Hm2, Ho2, Ht2, Hmr, Hmq, Hoq, Htq, Htr, Hcq.
    rewrite !register_all_counter, Hcr.
    repeat split; reflexivity. }
  assert (forall message,
            (forall v, rootRef host rootMargin threshold (Some root) v = Thrown message v) ->
            root_first = register_all rs w0 /\ queued_first = register_all rs w0)
    as Hthrown.
  { intros message Hthrow. unfold root_first, queued_first.
    now rewrite !Hthrow. }
  split; [|split].
  - destruct (positive_rootMargin host rootMargin
              && no_auto_overflow (computedStyle root)) eqn:Hcheck.
    + destruct (Hthrown overflow_error) as [-> ->]; [|now repeat split].
      intros v. now apply rootRef_throw.
    + destruct (observer_error host rootMargin threshold) as [message|] eqn:Hctor.
      * destruct (Hthrown message) as [-> ->]; [|now repeat split].
        intros v. now apply rootRef_rejected.
      * now destruct (Hsuccess eq_refl eq_refl) as [Hsame _].
  - intros Hcheck Haccept. now destruct (Hsuccess Hcheck Haccept) as [_ Hrest].
  - intros message Hthrow.
    assert (queued_first = register_all rs w0) as ->.
    { unfold queued_first. unfold rootRef in *.
      destruct (positive_rootMargin host rootMargin
                && no_auto_overflow (computedStyle root)); [reflexivity|].
      destruct (observer_error host rootMargin threshold); [reflexivity | discriminate]. }
    now rewrite Hm1, Ho1, Hqueue.
Qed.

Lemma registration_order_irrelevant_witness :
  let rs := [mkTemp 1 (Sample.setIsVisible_of 1) true;
             mkTemp 2 (Sample.setIsVisible_of 2) false] in
  let w0 := initial (Some 3%Z) in
  observerRef w0 = None /\ tempNodes w0 = [] /\
  Forall (fun r => JsMap.get (node r) (observedNodes w0) = None) rs /\
  NoDup (map node rs) /\
  positive_rootMargin Sample.host Sample.rootMargin
    && no_auto_overflow (computedStyle Sample.container) = false /\
  observer_error Sample.host Sample.rootMargin Sample.threshold = None /\
  observedNodes (run Sample.host
                     [Sample.attach;
                      OpRegister (Some 1) (Sample.setIsVisible_of 1) true;
                      OpRegister (Some 2) (Sample.setIsVisible_of 2) false] w0)
  = observedNodes (run Sample.host
                       [OpRegister (Some 1) (Sample.setIsVisible_of 1) true;
                        OpRegister (Some 2) (Sample.setIsVisible_of 2) false;
                        Sample.attach] w0) /\
  observedNodes (run Sample.host
                     [OpRegister (Some 1) (Sample.setIsVisible_of 1) true;
                      OpRegister (Some 2) (Sample.setIsVisible_of 2) false;
                      Sample.attach] w0)
  = entries_of rs.
Proof.
  intros rs w0.
  assert (Forall (fun r => JsMap.get (node r) (observedNodes w0) = None) rs) as Hfresh
      by (repeat constructor).
  assert (NoDup (map node rs)) as Hnd by evaluate_NoDup.
  split; [reflexivity | split; [reflexivity | split; [exact Hfresh | split; [exact Hnd|]]]].
  split; [reflexivity | split; [reflexivity|]].
  destruct (registration_order_irrelevant Sample.host w0 rs
              Sample.rootMargin Sample.threshold Sample.container
              eq_refl eq_refl Hfresh Hnd)
    as ((Hsame & _) & Hsuccess & _).
  split; [exact Hsame|]. exact (proj1 (Hsuccess eq_refl eq_refl)).
Defined.

(** ** Entries that outlive their sensor *)

(** X7.  A call of [rootRef] with a root leaves every registry entry where
    it is, and a new registration of an element that has an entry is
    ignored afterwards as before, whatever the callback.  When the root
    passes the overflow check and the constructor accepts the options, the
    new sensor observes the queued elements only: an element that already
    had a registry entry is not among its targets. *)
Theorem stale_entry_not_observed (host : Host)
        (w : World) (h : Element) (o : NodeOptions)
        (rootMargin : option string) (threshold : Threshold) (root : HTMLElement) :
  invariant w ->
  JsMap.get h (observedNodes w) = Some o ->
  let w' := world_of (rootRef host rootMargin threshold (Some root) w) in
  JsMap.get h (observedNodes w') = Some o /\
  (forall cb stop, registerObserver (Some h) cb stop w' = w') /\
  (positive_rootMargin host rootMargin
     && no_auto_overflow (computedStyle root) = false ->
   observer_error host rootMargin threshold = None ->
   exists io,
     rootRef host rootMargin threshold (Some root) w = Done w' /\
     observerRef w' = Some io /\
     io_root io = root_element root /\
     ~ In h (io_targets io)).
Proof.
  intros Hinv Hget w'.
  assert (Forall (fun t => node t <> h) (tempNodes w)) as Htemp.
  { eapply Forall_impl; [|exact (inv_pending_fresh w Hinv)].
    intros t Ht Heq. simpl in Ht. rewrite Heq in Ht. congruence. }
  assert (JsMap.get h (observedNodes w') = Some o) as Hget'.
  { destruct (rootRef_outcomes host rootMargin threshold root w)
      as [(message & Hthrow)|[Hcheck Haccept]].
    - unfold w'. now rewrite Hthrow.
    - destruct (rootRef_attach host rootMargin threshold root w Hcheck Haccept)
        as (v & Hrun & Hm & _).
      unfold w'. rewrite Hrun. cbn [world_of]. rewrite Hm.
      now rewrite flushed_get_other. }
  split; [exact Hget'|]. split.
  - intros cb stop. apply register_known. unfold JsMap.has. now rewrite Hget'.
  - intros Hcheck Haccept.
    destruct (rootRef_attach host rootMargin threshold root w Hcheck Haccept)
      as (v & Hrun & _).
    destruct (rootRef_sensor host rootMargin threshold root w v Hrun)
      as (io & Hio & Hroot & _ & Hin).
    assert (w' = v) as -> by (unfold w'; now rewrite Hrun).
    exists io. split; [exact Hrun|]. split; [exact Hio|]. split; [exact Hroot|].
    rewrite Hin. intros (t & Ht & Hint)%in_map_iff.
    rewrite Forall_forall in Htemp. now apply (Htemp t).
Qed.

Lemma stale_entry_not_observed_witness :
  let w := run Sample.host
               [Sample.attach;
                OpRegister (Some 1) (Sample.setIsVisible_of 1) true;
                OpRootRef Sample.rootMargin Sample.threshold None;
                OpRegister (Some 2) (Sample.setIsVisible_of 2) true]
               (initial None) in
  let w' := world_of (rootRef Sample.host Sample.rootMargin Sample.threshold
                              (Some Sample.container) w) in
  invariant w /\
  JsMap.get 1 (observedNodes w) = Some (mkOptions (Sample.setIsVisible_of 1) true) /\
  positive_rootMargin Sample.host Sample.rootMargin
    && no_auto_overflow (computedStyle Sample.container) = false /\
  observer_error Sample.host Sample.rootMargin Sample.threshold = None /\
  JsMap.get 1 (observedNodes w') = Some (mkOptions (Sample.setIsVisible_of 1) true) /\
  exists io, observerRef w' = Some io /\ ~ In 1 (io_targets io).
Proof.
  intros w w'.
  assert (invariant w) as Hinv by evaluate_invariant_detached.
  split; [exact Hinv | split; [reflexivity | split; [reflexivity | split; [reflexivity|]]]].
  destruct (stale_entry_not_observed Sample.host w 1
              (mkOptions (Sample.setIsVisible_of 1) true)
              Sample.rootMargin Sample.threshold Sample.container Hinv eq_refl)
    as (Hkept & _ & Hsensor).
  split; [exact Hkept|].
  destruct (Hsensor eq_refl eq_refl) as (io & _ & Hio & _ & Hnotin).
  now exists io.
Defined.

(** ** What every reachable world satisfies *)

(** X8.  In every world the provider can reach from its first render, by
    any sequence of registrations, unregistrations, root attachments and
    detachments, ticks, cleanups and consumer renders: the registry has one
    entry per element; no element of the pending queue is in the registry;
    and the sensor, when there is one, has each target once and only
    targets that are in the registry. *)
Theorem reachable_worlds_well_formed (host : Host) (w : World) :
  reachable host w ->
  NoDup (JsMap.keys (observedNodes w)) /\
  (forall t, In t (tempNodes w) -> JsMap.has (node t) (observedNodes w) = false) /\
  (forall io, observerRef w = Some io ->
     NoDup (io_targets io) /\
     forall n, In n (io_targets io) -> JsMap.has n (observedNodes w) = true).
Proof.
  intros Hreach.
  destruct (reachable_invariant host w Hreach) as [Hok _ Hfresh Hsensor].
  split; [exact Hok|]. split; [|exact Hsensor].
  intros t Hin. apply JsMapFacts.has_false.
  rewrite Forall_forall in Hfresh. now apply Hfresh.
Qed.

Lemma reachable_worlds_well_formed_witness :
  let w := world_of (step Sample.host
                       (world_of (step Sample.host (initial None)
                                       (OpRegister (Some 1) (Sample.setIsVisible_of 1) true)))
                       Sample.attach) in
  reachable Sample.host w /\
  NoDup (JsMap.keys (observedNodes w)).
Proof.
  intros w.
  assert (reachable Sample.host w) as Hreach
      by (unfold w; repeat apply reachable_step; apply reachable_initial).
  split; [exact Hreach|].
  exact (proj1 (reachable_worlds_well_formed Sample.host w Hreach)).
Defined.

(** ** The bootstrap counter *)

Lemma mount_all_claims (setters : list VisibilityCallback) (w : World) :
  (0 <= initiallyVisibleElements w)%Z ->
  map claim (fst (mount_all setters w))
  = map (fun i => Z.ltb (Z.of_nat i) (initiallyVisibleElements w))
        (seq 0 (List.length setters)) /\
  initiallyVisibleElements (snd (mount_all setters w))
  = Z.max 0 (initiallyVisibleElements w - Z.of_nat (List.length setters)) /\
  observedNodes (snd (mount_all setters w)) = observedNodes w /\
  tempNodes (snd (mount_all setters w)) = tempNodes w /\
  observerRef (snd (mount_all setters w)) = observerRef w /\
  trace (snd (mount_all setters w)) = trace w.
Proof.
  revert w. induction setters as [|s setters IH]; intros w Hc.
  - simpl. repeat split; trivial. lia.
  - cbn [mount_all List.length seq map].
    unfold useIntersectionObserver, fresh_hook, truthy. cbn [isInitiallyVisible isVisible].
    destruct (Z.eqb_spec (initiallyVisibleElements w) 0) as [Hz|Hnz]; cbn [negb].
    + destruct (IH w Hc) as (H1 & H2 & H3 & H4 & H5 & H6).
      destruct (mount_all setters w) as [hs w2]. cbn [fst snd map claim isInitiallyVisible] in *.
      rewrite H1, H2, H3, H4, H5, H6, <- seq_shift, map_map. repeat split; trivial.
      * f_equal; [rewrite Hz; reflexivity|].
        apply map_ext. intros i. rewrite Hz.
        destruct (Z.ltb_spec (Z.of_nat i) 0), (Z.ltb_spec (Z.of_nat (S i)) 0); trivial; lia.
      * lia.
    + assert (0 <= initiallyVisibleElements (decrement_initiallyVisible w))%Z as Hc'
          by (simpl; lia).
      destruct (IH (decrement_initiallyVisible w) Hc') as (H1 & H2 & H3 & H4 & H5 & H6).
      destruct (mount_all setters (decrement_initiallyVisible w)) as [hs w2].
      cbn [fst snd map claim isInitiallyVisible] in *.
      rewrite H1, H2, H3, H4, H5, H6, <- seq_shift, map_map.
      cbn [decrement_initiallyVisible initiallyVisibleElements observedNodes
           tempNodes observerRef trace].
      repeat split; trivial.
      * f_equal.
        -- symmetry. apply Z.ltb_lt. simpl. lia.
        -- apply map_ext. intros i.
           destruct (Z.ltb_spec (Z.of_nat i) (initiallyVisibleElements w - 1)),
                    (Z.ltb_spec (Z.of_nat (S i)) (initiallyVisibleElements w));
             trivial; lia.
      * lia.
Qed.

(** X9.  When a row of new consumers renders for the first time, with a
    counter [c] that is not negative, the consumers granted initial
    visibility are exactly the first [c] of the row (all of them when the
    row is shorter): the consumer at position [i] is granted iff [i < c].
    The counter ends at [c] less the length of the row, and at zero when
    that would be negative; the renders touch nothing else of the
    provider. *)
Theorem bootstrap_grants (setters : list VisibilityCallback) (w : World) :
  (0 <= initiallyVisibleElements w)%Z ->
  let hs := fst (mount_all setters w) in
  let w' := snd (mount_all setters w) in
  map claim hs
  = map (fun i => Z.ltb (Z.of_nat i) (initiallyVisibleElements w))
        (seq 0 (List.length setters)) /\
  initiallyVisibleElements w'
  = Z.max 0 (initiallyVisibleElements w - Z.of_nat (List.length setters)) /\
  observedNodes w' = observedNodes w /\
  tempNodes w' = tempNodes w /\
  observerRef w' = observerRef w /\
  trace w' = trace w.
Proof. intros Hc. now apply mount_all_claims. Qed.

Lemma bootstrap_grants_witness :
  let setters := map Sample.setIsVisible_of [1; 2; 3; 4; 5] in
  let w := run Sample.host [Sample.attach] (initial (Some 3%Z)) in
  (0 <= initiallyVisibleElements w)%Z /\
  map claim (fst (mount_all setters w)) = [true; true; true; false; false] /\
  initiallyVisibleElements (snd (mount_all setters w)) = 0%Z.
Proof.
  intros setters w.
  assert (0 <= initiallyVisibleElements w)%Z as Hc by (simpl; lia).
  split; [exact Hc|].
  destruct (bootstrap_grants setters w Hc) as (H1 & H2 & _).
  split; [exact H1 | exact H2].
Defined.

Section Counter.

Variable host : Host.

Lemma rootRef_counter (rootMargin : option string) (threshold : Threshold)
      (n : option HTMLElement) (w : World) :
  initiallyVisibleElements (world_of (rootRef host rootMargin threshold n w))
  = initiallyVisibleElements w.
Proof.
  destruct n as [root|].
  - destruct (positive_rootMargin host rootMargin
              && no_auto_overflow (computedStyle root)) eqn:Hcheck.
    + now rewrite rootRef_throw.
    + destruct (observer_error host rootMargin threshold) as [message|] eqn:Hctor.
      { now rewrite (rootRef_rejected host rootMargin threshold root w message Hcheck Hctor). }
      now destruct (rootRef_attach host rootMargin threshold root w Hcheck Hctor)
        as (w' & -> & _ & _ & _ & Hc & _).
  - simpl. unfold disconnect. now destruct (observerRef w).
Qed.

Lemma step_counter (w : World) (op : Op) :
  (0 <= initiallyVisibleElements w)%Z ->
  (0 <= initiallyVisibleElements (world_of (step host w op))
     <= initiallyVisibleElements w)%Z /\
  (is_render op = false ->
   initiallyVisibleElements (world_of (step host w op))
   = initiallyVisibleElements w).
Proof.
  intros Hc. destruct op as [n cb stop|rootMargin threshold n|es| |hk]; simpl step.
  - cbn [world_of]. rewrite register_counter. split; [lia | reflexivity].
  - rewrite rootRef_counter. split; [lia | reflexivity].
  - cbn [world_of]. rewrite tick_counter. split; [lia | reflexivity].
  - simpl. split; [lia | reflexivity].
  - split; [|discriminate]. simpl. unfold useIntersectionObserver, truthy.
    destruct (isInitiallyVisible hk); simpl; [lia|].
    destruct (Z.eqb_spec (initiallyVisibleElements w) 0); simpl; lia.
Qed.

Lemma run_counter (ops : list Op) (w : World) :
  (0 <= initiallyVisibleElements w)%Z ->
  (0 <= initiallyVisibleElements (run host ops w)
     <= initiallyVisibleElements w)%Z /\
  (existsb is_render ops = false ->
   initiallyVisibleElements (run host ops w)
   = initiallyVisibleElements w).
Proof.
  revert w. induction ops as [|op ops IH]; intros w Hc.
  - simpl. split; [lia | reflexivity].
  - simpl. destruct (step_counter w op Hc) as [Hb Heq].
    destruct (IH (world_of (step host w op))) as [Hb' Heq']; [lia|].
    split; [lia|]. intros [Hop Hops]%orb_false_iff.
    rewrite Heq' by assumption. now apply Heq.
Qed.

End Counter.

(** X10.  Started at a value that is not negative, the bootstrap counter
    never goes below zero and never goes up, whatever the provider and its
    consumers do; and only consumer renders change it: a run without
    renders leaves it as it was. *)
Theorem counter_bounds (host : Host)
        (ops : list Op) (w : World) :
  (0 <= initiallyVisibleElements w)%Z ->
  (0 <= initiallyVisibleElements (run host ops w)
     <= initiallyVisibleElements w)%Z /\
  (existsb is_render ops = false ->
   initiallyVisibleElements (run host ops w)
   = initiallyVisibleElements w).
Proof. intros Hc. now apply run_counter. Qed.

Lemma counter_bounds_witness :
  let w := initial (Some 1%Z) in
  let ops := [OpRender (fresh_hook (Sample.setIsVisible_of 1));
              Sample.attach;
              OpRender (fresh_hook (Sample.setIsVisible_of 2));
              OpRegister (Some 2) (Sample.setIsVisible_of 2) true;
              OpTick [mkEntry 2 true];
              OpRender (fresh_hook (Sample.setIsVisible_of 3))] in
  (0 <= initiallyVisibleElements w)%Z /\
  (0 <= initiallyVisibleElements (run Sample.host ops w) <= 1)%Z.
Proof.
  intros w ops.
  assert (0 <= initiallyVisibleElements w)%Z as Hc by (simpl; lia).
  split; [exact Hc|].
  exact (proj1 (counter_bounds Sample.host ops w Hc)).
Defined.

(** ** The provider's cleanup *)

(** X11.  The cleanup of the provider empties the pending queue and leaves
    the registry and the sensor alone.  An element that was only waiting in
    the queue is dropped for good: whatever follows, a later attachment of
    the root and ticks naming the element included, it does not enter the
    registry and no callback is invoked for it, until it is registered
    again. *)
Theorem cleanup_drops_queue (host : Host)
        (w : World) (h : Element) (ops : list Op) :
  JsMap.get h (observedNodes w) = None ->
  forallb (fun op => negb (registers h op)) ops = true ->
  let w1 := unmount_provider w in
  tempNodes w1 = [] /\
  observedNodes w1 = observedNodes w /\
  observerRef w1 = observerRef w /\
  JsMap.get h (observedNodes (run host ops w1)) = None /\
  delivered h (emitted w1 (run host ops w1)) = [].
Proof.
  intros Hget Hops w1.
  assert (untracked h w1) as Hu by (split; [exact Hget | constructor]).
  destruct (untracked_run host h ops w1 Hu Hops)
    as [[Hgone _] (evs & Hx & Hq)].
  repeat split; trivial.
  rewrite (emitted_extends _ _ _ Hx). now apply delivered_quiet.
Qed.

Lemma cleanup_drops_queue_witness :
  let w := run Sample.host
               [OpRegister (Some 1) (Sample.setIsVisible_of 1) true;
                OpRegister (Some 2) (Sample.setIsVisible_of 2) false]
               (initial None) in
  let ops := [Sample.attach; OpTick [mkEntry 1 true; mkEntry 2 true]] in
  JsMap.get 1 (observedNodes w) = None /\
  forallb (fun op => negb (registers 1 op)) ops = true /\
  delivered 1 (emitted (unmount_provider w)
                       (run Sample.host ops (unmount_provider w))) = [].
Proof.
  intros w ops. split; [reflexivity | split; [reflexivity|]].
  exact (proj2 (proj2 (proj2 (proj2
           (cleanup_drops_queue Sample.host w 1 ops eq_refl eq_refl))))).
Defined.

(** ** A wrapper that starts visible *)

Lemma rerender_shown {C : Type} (children : C) (k : nat) (h : HookState) (w : World) :
  isInitiallyVisible h <> None ->
  isVisible h = Some true ->
  exists h',
    rerender children k (Some children) h w = (Some children, (h', w)) /\
    isInitiallyVisible h' <> None /\
    isVisible h' = Some true /\
    setIsVisible h' = setIsVisible h.
Proof.
  revert h. induction k as [|k IH]; intros h Href Hstate.
  - exists h. now repeat split.
  - cbn [rerender]. unfold DeferredRenderWrapper, useIntersectionObserver.
    destruct (isInitiallyVisible h) as [b|] eqn:E; [|congruence].
    rewrite Hstate. cbn [fst snd isVisible].
    destruct (IH (mkHook (Some false) (Some true) (setIsVisible h))) as (h' & Hrun & H1 & H2 & H3);
      [discriminate | reflexivity|].
    exists h'. now repeat split.
Qed.

(** X12.  A [DeferredRenderWrapper] that mounts while the counter is above
    zero, with a state setter that no registry entry carries: its first
    render shows the children; its ref callback, called with the element at
    mount, does nothing; any number of further renders show the children
    again and change nothing; and its ref callback, called with [null] at
    unmount, does nothing either.  Over its whole life the instance takes
    one off the counter and leaves the registry, the pending queue, the
    sensor and the trace as they were. *)
Theorem initially_visible_wrapper {C : Type} (children : C)
        (setter : VisibilityCallback) (n : Element) (k : nat) (w : World) :
  (0 < initiallyVisibleElements w)%Z ->
  first_with_callback setter (observedNodes w) = None ->
  let first := DeferredRenderWrapper children (fresh_hook setter) w in
  let mounted := observeRef true (fst (snd first)) (Some n) (snd (snd first)) in
  let last := rerender children k (fst first) (fst (snd first)) mounted in
  let unmounted := observeRef true (fst (snd last)) None (snd (snd last)) in
  fst first = Some children /\
  fst last = Some children /\
  mounted = decrement_initiallyVisible w /\
  snd (snd last) = decrement_initiallyVisible w /\
  unmounted = decrement_initiallyVisible w.
Proof.
  intros Hc Hfresh first mounted last unmounted.
  assert (first = (Some children,
                   (mkHook (Some true) (Some true) setter, decrement_initiallyVisible w)))
    as Hfirst.
  { unfold first, DeferredRenderWrapper, useIntersectionObserver, fresh_hook, truthy.
    cbn [isInitiallyVisible isVisible].
    destruct (Z.eqb_spec (initiallyVisibleElements w) 0) as [Hz|_]; [lia | reflexivity]. }
  assert (mounted = decrement_initiallyVisible w) as Hmounted
      by (unfold mounted; rewrite Hfirst; reflexivity).
  destruct (rerender_shown children k (mkHook (Some true) (Some true) setter)
                           (decrement_initiallyVisible w))
    as (h' & Hrun & _ & _ & Hsetter); [discriminate | reflexivity|].
  assert (last = (Some children, (h', decrement_initiallyVisible w))) as Hlast.
  { unfold last. rewrite Hmounted, Hfirst. exact Hrun. }
  split; [now rewrite Hfirst|]. split; [now rewrite Hlast|].
  split; [exact Hmounted|]. split; [now rewrite Hlast|].
  unfold unmounted. rewrite Hlast. cbn [fst snd]. unfold observeRef.
  destruct (claim h' && true); [reflexivity|].
  cbn [registerObserver]. rewrite unregister_loop_first, Hsetter.
  cbn [setIsVisible decrement_initiallyVisible observedNodes]. now rewrite Hfresh.
Qed.

Lemma initially_visible_wrapper_witness :
  let w := run Sample.host
               [Sample.attach; OpRegister (Some 1) (Sample.setIsVisible_of 1) true]
               (initial (Some 2%Z)) in
  (0 < initiallyVisibleElements w)%Z /\
  first_with_callback (Sample.setIsVisible_of 7) (observedNodes w) = None /\
  observeRef true
    (fst (snd (rerender "row" 3 None (fresh_hook (Sample.setIsVisible_of 7)) w)))
    None
    (snd (snd (rerender "row" 3 None (fresh_hook (Sample.setIsVisible_of 7)) w)))
  = decrement_initiallyVisible w.
Proof.
  intros w.
  assert (0 < initiallyVisibleElements w)%Z as Hc by (simpl; lia).
  split; [exact Hc | split; [reflexivity|]].
  exact (proj2 (proj2 (proj2 (proj2
           (initially_visible_wrapper "row" (Sample.setIsVisible_of 7) 7 2 w Hc eq_refl))))).
Defined.

(** ** Who invokes callbacks *)

Lemma call_values_app (a b : list Event) :
  call_values (a ++ b) = call_values a ++ call_values b.
Proof.
  induction a as [|ev a IH]; simpl; [reflexivity|].
  destruct ev; trivial. simpl. now rewrite IH.
Qed.

Lemma call_values_retirement (live : bool) (n : Element) :
  call_values (retirement live n) = [].
Proof. now destruct live. Qed.

Lemma call_values_flush (ts : list TempNode) :
  call_values (flat_map (fun t => [EvObserve (node t); EvSet (node t)]) ts) = [].
Proof. induction ts as [|t ts IH]; simpl; trivial. Qed.

Lemma register_silent (n : option Element) (cb : VisibilityCallback)
      (stop : bool) (w : World) :
  exists evs, extends w (registerObserver n cb stop w) evs /\ call_values evs = [].
Proof.
  destruct n as [n|]; simpl.
  - destruct (JsMap.has n (observedNodes w)).
    { exists []. split; [apply extends_refl | reflexivity]. }
    destruct (observerRef w) eqn:Ho.
    + destruct (subscribe_effect n (mkOptions cb stop) w) as (_ & _ & _ & _ & Hx).
      eexists. split; [exact Hx|]. now destruct (is_live w).
    + exists [EvPush n]. split; reflexivity.
  - rewrite unregister_loop_first.
    destruct (first_with_callback cb (observedNodes w)) as [k|].
    + destruct (retire_effect k w) as (_ & _ & _ & _ & Hx).
      eexists. split; [exact Hx | apply call_values_retirement].
    + exists []. split; [apply extends_refl | reflexivity].
Qed.

(** X13.  Only a tick invokes a consumer callback.  Registering an element,
    unregistering by callback, attaching or detaching the root (the flush of
    the pending queue included), the provider's cleanup and a consumer's
    render invoke none. *)
Theorem only_ticks_invoke_callbacks (host : Host)
        (w : World) (op : Op) :
  is_tick op = false ->
  call_values (emitted w (world_of (step host w op))) = [].
Proof.
  intros Hop.
  assert (exists evs, extends w (world_of (step host w op)) evs /\
                      call_values evs = []) as (evs & Hx & Hsilent).
  { destruct op as [n cb stop|rootMargin threshold n|es| |hk]; simpl; try discriminate.
    - apply register_silent.
    - destruct n as [root|].
      + destruct (positive_rootMargin host rootMargin
                  && no_auto_overflow (computedStyle root)) eqn:Hcheck.
        * rewrite rootRef_throw by assumption.
          exists []. split; [apply extends_refl | reflexivity].
        * destruct (observer_error host rootMargin threshold) as [message|] eqn:Hctor.
          { rewrite (rootRef_rejected host rootMargin threshold root w message Hcheck Hctor).
            exists []. split; [apply extends_refl | reflexivity]. }
          destruct (rootRef_attach host rootMargin threshold root w Hcheck Hctor)
            as (w' & -> & _ & _ & _ & _ & Hx).
          eexists. split; [exact Hx|]. simpl. apply call_values_flush.
      + simpl. unfold disconnect. destruct (observerRef w).
        * exists [EvDisconnect]. split; reflexivity.
        * exists []. split; [apply extends_refl | reflexivity].
    - exists []. split; [|reflexivity]. unfold extends. simpl. now rewrite app_nil_r.
    - unfold useIntersectionObserver.
      destruct (isInitiallyVisible hk); simpl;
        [exists []; split; [apply extends_refl | reflexivity]|].
      destruct (truthy (initiallyVisibleElements w)); simpl.
      + exists []. split; [|reflexivity]. unfold extends. simpl. now rewrite app_nil_r.
      + exists []. split; [apply extends_refl | reflexivity]. }
  now rewrite (emitted_extends _ _ _ Hx).
Qed.

Lemma only_ticks_invoke_callbacks_witness :
  let w := run Sample.host
               [OpRegister (Some 1) (Sample.setIsVisible_of 1) true;
                OpRegister (Some 2) (Sample.setIsVisible_of 2) false]
               (initial (Some 1%Z)) in
  is_tick Sample.attach = false /\
  call_values (emitted w (world_of (step Sample.host w Sample.attach))) = [].
Proof.
  intros w. split; [reflexivity|].
  exact (only_ticks_invoke_callbacks Sample.host w Sample.attach eq_refl).
Defined.

Lemma pair_events_call (live : bool) (m : JsMap.t) (e : IntersectionObserverEntry)
      (n : Element) (cb : VisibilityCallback) (b : bool) :
  In (EvCall n cb b) (pair_events live m e) ->
  e = mkEntry n b /\
  exists o, JsMap.get n m = Some o /\ visibilityCallback o = cb.
Proof.
  unfold pair_events. destruct (JsMap.get (target e) m) as [o|] eqn:G; [|intros []].
  intros [Heq|Hin].
  - injection Heq as <- <- <-. split; [now destruct e|]. now exists o.
  - exfalso. destruct (isIntersecting e && stopObservingOnceVisible o); [|destruct Hin].
    destruct live; simpl in Hin; intuition discriminate.
Qed.

Lemma pair_events_calls (live : bool) (m : JsMap.t) (e : IntersectionObserverEntry) :
  List.length (call_values (pair_events live m e)) <= 1.
Proof.
  unfold pair_events. destruct (JsMap.get (target e) m) as [o|]; simpl; [|lia].
  destruct (isIntersecting e && stopObservingOnceVisible o); simpl; [|lia].
  rewrite call_values_retirement. simpl. lia.
Qed.

Lemma tick_sound (es : list IntersectionObserverEntry) (w : World) (m0 : JsMap.t) :
  JsMap.ok (observedNodes w) ->
  (forall n o, JsMap.get n (observedNodes w) = Some o -> JsMap.get n m0 = Some o) ->
  exists evs,
    extends w (onIntersection es w) evs /\
    List.length (call_values evs) <= List.length es /\
    forall n cb b,
      In (EvCall n cb b) evs ->
      In (mkEntry n b) es /\
      exists o, JsMap.get n m0 = Some o /\ visibilityCallback o = cb.
Proof.
  revert w. induction es as [|e es IH]; intros w Hok Hsub.
  - exists []. split; [apply extends_refl|]. split; [simpl; lia | intros n cb b []].
  - rewrite onIntersection_cons.
    destruct (dispatch_frame w e) as (_ & _ & Hok' & Hother & _). cbv zeta in *.
    destruct (IH (dispatch_entry w e) (Hok' Hok)) as (evs & Hx & Hlen & Hcalls).
    { intros n o Hn. apply Hsub.
      destruct (Nat.eq_dec n (target e)) as [->|Hne]; [|now rewrite <- Hother].
      rewrite dispatch_registry in Hn by assumption.
      apply JsMapFacts.get_Some_In, filter_In in Hn as [Hin _].
      now apply JsMapFacts.In_get. }
    exists (pair_events (is_live w) (observedNodes w) e ++ evs).
    split; [eapply extends_trans; [apply dispatch_events | exact Hx]|]. split.
    + rewrite call_values_app, length_app. simpl.
      pose proof (pair_events_calls (is_live w) (observedNodes w) e). lia.
    + intros n cb b [Hin|Hin]%in_app_iff.
      * apply pair_events_call in Hin as (-> & o & Hget & Hcb).
        split; [now left|]. exists o. split; [now apply Hsub | exact Hcb].
      * destruct (Hcalls n cb b Hin) as [Hes Ho]. split; [now right | exact Ho].
Qed.

(** X14.  A tick invokes at most one callback per pair, and every
    invocation it makes is the callback that the registry held for the
    pair's element when the tick began, with the value of a pair of the
    tick for that element: nothing is invoked for an element that was not
    registered, and no value is delivered that the sensor did not
    report. *)
Theorem tick_invocations_sound (es : list IntersectionObserverEntry) (w : World) :
  JsMap.ok (observedNodes w) ->
  let evs := emitted w (onIntersection es w) in
  List.length (call_values evs) <= List.length es /\
  forall n cb b,
    In (EvCall n cb b) evs ->
    In (mkEntry n b) es /\
    exists o, JsMap.get n (observedNodes w) = Some o /\ visibilityCallback o = cb.
Proof.
  intros Hok evs.
  destruct (tick_sound es w (observedNodes w) Hok (fun n o H => H))
    as (evs' & Hx & Hlen & Hcalls).
  unfold evs. rewrite (emitted_extends _ _ _ Hx). now split.
Qed.

Lemma tick_invocations_sound_witness :
  let w := run Sample.host
               [Sample.attach;
                OpRegister (Some 1) (Sample.setIsVisible_of 1) true;
                OpRegister (Some 2) (Sample.setIsVisible_of 2) false]
               (initial None) in
  let es := [mkEntry 1 true; mkEntry 1 false; mkEntry 9 true; mkEntry 2 false] in
  JsMap.ok (observedNodes w) /\
  List.length (call_values (emitted w (onIntersection es w))) <= List.length es.
Proof.
  intros w es.
  assert (JsMap.ok (observedNodes w)) as Hok by (unfold JsMap.ok; evaluate_NoDup).
  split; [exact Hok|]. exact (proj1 (tick_invocations_sound es w Hok)).
Defined.

(** ** A tick over many one-shot elements *)

Lemma length_delete (k : Element) (o : NodeOptions) (m : JsMap.t) :
  JsMap.get k m = Some o -> S (List.length (JsMap.delete k m)) = List.length m.
Proof.
  induction m as [|[k0 v0] rest IH]; simpl; [discriminate|].
  destruct (Nat.eqb k0 k); [reflexivity|]. intros H. simpl. now rewrite IH.
Qed.

Lemma batch_registry (es : list IntersectionObserverEntry) (w : World) :
  JsMap.ok (observedNodes w) ->
  NoDup (map target es) ->
  (forall e, In e es ->
     isIntersecting e = true /\
     exists cb, JsMap.get (target e) (observedNodes w) = Some (mkOptions cb true)) ->
  List.length (observedNodes (onIntersection es w)) + List.length es
  = List.length (observedNodes w) /\
  forall h, JsMap.get h (observedNodes w) = None \/ In h (map target es) ->
            JsMap.get h (observedNodes (onIntersection es w)) = None.
Proof.
  revert w. induction es as [|e es IH]; intros w Hok Hnd Hall.
  - simpl. split; [lia | intros h [H|[]]; exact H].
  - rewrite onIntersection_cons. inversion_clear Hnd as [|? ? Hnotin Hnd'].
    destruct (Hall e (or_introl eq_refl)) as (Hint & cb & Hget).
    assert (isIntersecting e && stopObservingOnceVisible (mkOptions cb true) = true) as B
        by (now rewrite Hint).
    destruct (dispatch_retire w e _ Hget B) as (Hm & _). cbv zeta in Hm.
    destruct (IH (dispatch_entry w e)) as [Hlen Habsent].
    + rewrite Hm. now apply JsMapFacts.ok_delete.
    + assumption.
    + intros e' Hin. destruct (Hall e' (or_intror Hin)) as (Hint' & cb' & Hget').
      split; [exact Hint'|]. exists cb'. rewrite Hm.
      rewrite JsMapFacts.get_delete_other; [exact Hget'|].
      intros Heq. apply Hnotin. rewrite <- Heq. now apply in_map.
    + split.
      * rewrite Hm in Hlen. pose proof (length_delete _ _ _ Hget). simpl. lia.
      * intros h Hh. apply Habsent. rewrite Hm.
        destruct Hh as [Hnone|[<-|Hin]].
        -- left. now apply JsMapFacts.delete_stays_absent.
        -- left. now apply JsMapFacts.get_delete_same.
        -- now right.
Qed.

Lemma batch_calls (live : bool) (m : JsMap.t) (es : list IntersectionObserverEntry) :
  (forall e, In e es ->
     isIntersecting e = true /\
     exists cb, JsMap.get (target e) m = Some (mkOptions cb true)) ->
  call_values (flat_map (pair_events live m) es) = repeat true (List.length es).
Proof.
  induction es as [|e es IH]; intros Hall; [reflexivity|].
  simpl flat_map. rewrite call_values_app, IH by (intros e' H; apply Hall; now right).
  destruct (Hall e (or_introl eq_refl)) as (Hint & cb & Hget).
  unfold pair_events. rewrite Hget, Hint. simpl.
  now rewrite call_values_retirement.
Qed.

(** X15.  A tick that reports as intersecting a set of one-shot elements of
    the registry, each once: it makes exactly one callback invocation per
    pair, all with [true]; the registry has as many entries fewer as the tick
    has pairs; and none of the reported elements is in the registry
    afterwards. *)
Theorem batch_retirement (es : list IntersectionObserverEntry) (w : World) :
  JsMap.ok (observedNodes w) ->
  NoDup (map target es) ->
  (forall e, In e es ->
     isIntersecting e = true /\
     exists cb, JsMap.get (target e) (observedNodes w) = Some (mkOptions cb true)) ->
  let w' := onIntersection es w in
  call_values (emitted w w') = repeat true (List.length es) /\
  List.length (observedNodes w') + List.length es = List.length (observedNodes w) /\
  forall e, In e es -> JsMap.get (target e) (observedNodes w') = None.
Proof.
  intros Hok Hnd Hall w'.
  destruct (batch_registry es w Hok Hnd Hall) as [Hlen Habsent].
  split; [|split; [exact Hlen|]].
  - unfold w'.
    rewrite (emitted_extends _ _ _ (tick_events_from es w (observedNodes w) (is_live w)
                                      eq_refl (fun e _ => eq_refl) Hnd)).
    now apply batch_calls.
  - intros e Hin. apply Habsent. right. now apply in_map.
Qed.

Lemma batch_retirement_witness :
  let w := run Sample.host
               [OpRegister (Some 0) (Sample.setIsVisible_of 0) true;
                OpRegister (Some 1) (Sample.setIsVisible_of 1) true;
                OpRegister (Some 2) (Sample.setIsVisible_of 2) true;
                OpRegister (Some 3) (Sample.setIsVisible_of 3) true;
                Sample.attach]
               (initial (Some 0%Z)) in
  let es := [mkEntry 2 true; mkEntry 0 true] in
  JsMap.ok (observedNodes w) /\
  NoDup (map target es) /\
  (forall e, In e es ->
     isIntersecting e = true /\
     exists cb, JsMap.get (target e) (observedNodes w) = Some (mkOptions cb true)) /\
  call_values (emitted w (onIntersection es w)) = [true; true] /\
  List.length (observedNodes (onIntersection es w)) + 2 = 4.
Proof.
  intros w es.
  assert (JsMap.ok (observedNodes w)) as Hok by (unfold JsMap.ok; evaluate_NoDup).
  assert (NoDup (map target es)) as Hnd by evaluate_NoDup.
  assert (forall e, In e es ->
            isIntersecting e = true /\
            exists cb, JsMap.get (target e) (observedNodes w) = Some (mkOptions cb true))
    as Hall.
  { intros e [<-|[<-|[]]]; (split; [reflexivity | eexists; reflexivity]). }
  split; [exact Hok | split; [exact Hnd | split; [exact Hall|]]].
  destruct (batch_retirement es w Hok Hnd Hall) as (Hcalls & Hlen & _).
  split; [exact Hcalls | exact Hlen].
Defined.
